(** * Summit Cards backend: the Pokemon TCG API proxy (server.js)

    A shallow embedding of [server.js]: the CORS origin callback, the
    forwarding helper [pokemonApiRequest] with its abort timer, the four
    [/api] route handlers and the [/health] endpoint.

    JavaScript strings are modelled as [string]; the only characters the
    code inspects are ASCII.  A plain JS object used as a map (the outbound
    header table) is a [gmap string string]. *)

From Stdlib Require Import ZArith Lia Ascii String.
From stdpp Require Import base strings gmap list pretty.

Local Open Scope Z_scope.

#[local] Set Warnings "-register-all".

(** ** The pieces of the JavaScript runtime the file relies on *)

Module JS.

(** An [Error] object, as far as the code observes it. *)
Record JsError := mkError { name : string; message : string }.

(** [new Error(msg)]. *)
Definition Error (msg : string) : JsError :=
  {| name := "Error"; message := msg |}.

(** Truthiness of a value that is [undefined] or a string. *)
Definition truthy (v : option string) : bool :=
  match v with
  | None => false
  | Some s => negb (String.eqb s "")
  end.

(** [a || b] where [a] is [undefined] or a string and [b] a string. *)
Definition or_else (a : option string) (b : string) : string :=
  match a with
  | Some s => if String.eqb s "" then b else s
  | None => b
  end.

(** [Array.prototype.includes] on an array of strings. *)
Fixpoint Array_includes (arr : list string) (x : string) : bool :=
  match arr with
  | [] => false
  | y :: rest => if String.eqb y x then true else Array_includes rest x
  end.

(** [String.prototype.indexOf]: first position of [needle], or -1. *)
Fixpoint indexOf_from (needle s : string) (i : Z) : Z :=
  if String.prefix needle s then i
  else match s with
       | EmptyString => -1
       | String _ rest => indexOf_from needle rest (i + 1)
       end.

Definition indexOf (s needle : string) : Z := indexOf_from needle s 0.

(** [String.prototype.includes]. *)
Definition String_includes (s needle : string) : bool :=
  negb (Z.eqb (indexOf s needle) (-1)).

Fixpoint drop_chars (n : nat) (s : string) : string :=
  match n, s with
  | O, _ => s
  | S _, EmptyString => EmptyString
  | S k, String _ rest => drop_chars k rest
  end.

(** [String.prototype.substring(start)]: a negative start counts as 0 and
    a start past the end yields the empty string. *)
Definition substring (s : string) (start : Z) : string :=
  drop_chars (Z.to_nat (Z.max 0 start)) s.

(** Number-to-string conversion of a non-negative integer: its decimal
    digits. *)
Definition Number_toString (n : N) : string := pretty n.

End JS.

Import JS.

(** ** Dates: [new Date().toISOString()]

    Time values are integers, milliseconds since the epoch; the day and
    year arithmetic is the one the language definition gives for [Date]. *)

Module DateTime.

Definition msPerDay : Z := 86400000.
Definition msPerHour : Z := 3600000.
Definition msPerMinute : Z := 60000.
Definition msPerSecond : Z := 1000.

(** The largest time value a [Date] can hold (and the smallest, negated). *)
Definition maxTime : Z := 8640000000000000.

Definition Day (t : Z) : Z := t / msPerDay.
Definition TimeWithinDay (t : Z) : Z := t mod msPerDay.

Definition DaysInYear (y : Z) : Z :=
  if negb (y mod 4 =? 0) then 365
  else if negb (y mod 100 =? 0) then 366
  else if negb (y mod 400 =? 0) then 365
  else 366.

Definition DayFromYear (y : Z) : Z :=
  365 * (y - 1970) + (y - 1969) / 4 - (y - 1901) / 100 + (y - 1601) / 400.

Definition TimeFromYear (y : Z) : Z := msPerDay * DayFromYear y.

(** The largest [y] with [TimeFromYear y <= t]: a first estimate from the
    mean length of the Gregorian year, corrected by at most one. *)
Definition YearFromTime (t : Z) : Z :=
  let d := Day t in
  let y := 1970 + (400 * d) / 146097 in
  if d <? DayFromYear y then y - 1
  else if DayFromYear (y + 1) <=? d then y + 1
  else y.

Definition DayWithinYear (t : Z) : Z := Day t - DayFromYear (YearFromTime t).

Definition InLeapYear (t : Z) : Z :=
  if DaysInYear (YearFromTime t) =? 366 then 1 else 0.

(** The month (0-11) and the day of the month (1-31) of the [d]-th day of
    a year, [leap] being 1 in a leap year and 0 otherwise. *)
Definition monthOfDay (d leap : Z) : Z :=
  if d <? 31 then 0
  else if d <? 59 + leap then 1
  else if d <? 90 + leap then 2
  else if d <? 120 + leap then 3
  else if d <? 151 + leap then 4
  else if d <? 181 + leap then 5
  else if d <? 212 + leap then 6
  else if d <? 243 + leap then 7
  else if d <? 273 + leap then 8
  else if d <? 304 + leap then 9
  else if d <? 334 + leap then 10
  else 11.

Definition dateOfDay (d leap : Z) : Z :=
  match monthOfDay d leap with
  | 0 => d + 1
  | 1 => d - 30
  | 2 => d - 58 - leap
  | 3 => d - 89 - leap
  | 4 => d - 119 - leap
  | 5 => d - 150 - leap
  | 6 => d - 180 - leap
  | 7 => d - 211 - leap
  | 8 => d - 242 - leap
  | 9 => d - 272 - leap
  | 10 => d - 303 - leap
  | _ => d - 333 - leap
  end.

Definition MonthFromTime (t : Z) : Z := monthOfDay (DayWithinYear t) (InLeapYear t).
Definition DateFromTime (t : Z) : Z := dateOfDay (DayWithinYear t) (InLeapYear t).

Definition HourFromTime (t : Z) : Z := (t / msPerHour) mod 24.
Definition MinFromTime (t : Z) : Z := (t / msPerMinute) mod 60.
Definition SecFromTime (t : Z) : Z := (t / msPerSecond) mod 60.
Definition msFromTime (t : Z) : Z := t mod msPerSecond.

(** Decimal digits, zero-padded to a fixed width. *)
Definition digit (n : Z) : ascii := ascii_of_nat (48 + Z.to_nat n).

Fixpoint padded (width : nat) (n : Z) : string :=
  match width with
  | O => ""
  | S w => String (digit (n / 10 ^ Z.of_nat w)) (padded w (n mod 10 ^ Z.of_nat w))
  end.

Definition yearString (y : Z) : string :=
  if (0 <=? y) && (y <=? 9999) then padded 4 y
  else (if y <? 0 then "-" else "+") +:+ padded 6 (Z.abs y).

(** [Date.prototype.toISOString] on a date whose time value is [t]. *)
Definition toISOString (t : Z) : string :=
  yearString (YearFromTime t) +:+ "-" +:+ padded 2 (MonthFromTime t + 1)
    +:+ "-" +:+ padded 2 (DateFromTime t)
    +:+ "T" +:+ padded 2 (HourFromTime t)
    +:+ ":" +:+ padded 2 (MinFromTime t)
    +:+ ":" +:+ padded 2 (SecFromTime t)
    +:+ "." +:+ padded 3 (msFromTime t) +:+ "Z".

(** *** Reading the format back *)

Definition digitValue (c : ascii) : option Z :=
  let n := Z.of_nat (nat_of_ascii c) in
  if (48 <=? n) && (n <=? 57) then Some (n - 48) else None.

(** Reads exactly [width] decimal digits. *)
Fixpoint readDigits (width : nat) (acc : Z) (s : string) : option (Z * string) :=
  match width with
  | O => Some (acc, s)
  | S w =>
      match s with
      | String c rest =>
          match digitValue c with
          | Some v => readDigits w (10 * acc + v) rest
          | None => None
          end
      | EmptyString => None
      end
  end.

Definition expect (c : ascii) (s : string) : option string :=
  match s with
  | String c' rest => if Ascii.eqb c c' then Some rest else None
  | EmptyString => None
  end.

Definition readYear (s : string) : option (Z * string) :=
  match s with
  | String c rest =>
      if Ascii.eqb c "+" then readDigits 6 0 rest
      else if Ascii.eqb c "-" then
        match readDigits 6 0 rest with
        | Some (y, rest') => if y =? 0 then None else Some (- y, rest')
        | None => None
        end
      else readDigits 4 0 s
  | EmptyString => None
  end.

Definition daysBeforeMonth (m leap : Z) : Z :=
  match m with
  | 0 => 0
  | 1 => 31
  | 2 => 59 + leap
  | 3 => 90 + leap
  | 4 => 120 + leap
  | 5 => 151 + leap
  | 6 => 181 + leap
  | 7 => 212 + leap
  | 8 => 243 + leap
  | 9 => 273 + leap
  | 10 => 304 + leap
  | _ => 334 + leap
  end.

Definition daysInMonth (m leap : Z) : Z :=
  match m with
  | 1 => 28 + leap
  | 3 | 5 | 8 | 10 => 30
  | _ => 31
  end.

Definition MakeTime (hour min sec ms : Z) : Z :=
  hour * msPerHour + min * msPerMinute + sec * msPerSecond + ms.

Definition MakeDay (year month date : Z) : Z :=
  let leap := if DaysInYear year =? 366 then 1 else 0 in
  DayFromYear year + daysBeforeMonth month leap + date - 1.

Definition MakeDate (day time : Z) : Z := day * msPerDay + time.

Definition TimeClip (t : Z) : option Z :=
  if Z.abs t <=? maxTime then Some t else None.

(** Reads a date-time in the complete form of the ECMAScript interchange
    format (the ISO-8601 profile [YYYY-MM-DDTHH:mm:ss.sssZ], with a signed
    six-digit year outside 0-9999) and returns its time value; [None] when
    the string is not in that form or names no valid instant. *)
Definition parseISO (s : string) : option Z :=
  '(year, s) ← readYear s;
  s ← expect "-" s;
  '(month, s) ← readDigits 2 0 s;
  s ← expect "-" s;
  '(date, s) ← readDigits 2 0 s;
  s ← expect "T" s;
  '(hour, s) ← readDigits 2 0 s;
  s ← expect ":" s;
  '(min, s) ← readDigits 2 0 s;
  s ← expect ":" s;
  '(sec, s) ← readDigits 2 0 s;
  s ← expect "." s;
  '(ms, s) ← readDigits 3 0 s;
  s ← expect "Z" s;
  let leap := if DaysInYear year =? 366 then 1 else 0 in
  if String.eqb s ""
     && (1 <=? month) && (month <=? 12)
     && (1 <=? date) && (date <=? daysInMonth (month - 1) leap)
     && (hour <=? 23) && (min <=? 59) && (sec <=? 59)
  then TimeClip (MakeDate (MakeDay year (month - 1) date) (MakeTime hour min sec ms))
  else None.

End DateTime.

Import DateTime.

(** ** Module-level constants *)

Definition POKEMON_TCG_API : string := "https://api.pokemontcg.io/v2".

(** [process.env], as far as the file reads it. *)
Record ProcessEnv := {
  env_PORT : option string;
  env_POKEMON_TCG_API_KEY : option string
}.

(** [process.env.PORT || 3001]: the variable if set and non-empty, else
    the number 3001. *)
Definition PORT (env : ProcessEnv) : string + N :=
  if truthy (env_PORT env) then inl (default "" (env_PORT env)) else inr 3001%N.

Definition API_KEY (env : ProcessEnv) : string :=
  or_else (env_POKEMON_TCG_API_KEY env) "".

Definition allowedOrigins : list string :=
  [ "https://collection.summitcards.co.uk";
    "https://summitcards.co.uk";
    "https://www.summitcards.co.uk";
    "http://localhost:5173";
    "http://localhost:3000";
    "http://127.0.0.1:5173" ].

(** ** The CORS origin callback *)

(** What the callback hands to [cors]: [callback(null, true)] or
    [callback(err)]. *)
Inductive CorsVerdict :=
| Allowed
| Denied (err : JsError).

(** The [origin] function given to [cors], over an arbitrary allow-list;
    the second component is what it writes with [console.log].  The
    argument is [req.headers.origin]: [None] when the header is missing. *)
Definition corsOrigin (allowed : list string) (origin : option string)
  : CorsVerdict * list string :=
  if negb (truthy origin) then (Allowed, [])
  else
    let o := default "" origin in
    if Array_includes allowed o then (Allowed, [])
    else (Denied (Error "Not allowed by CORS"), ["Blocked origin: " +:+ o]).

Definition originCallback (origin : option string) : CorsVerdict * list string :=
  corsOrigin allowedOrigins origin.

Definition isAllowed (v : CorsVerdict * list string) : bool :=
  match fst v with Allowed => true | Denied _ => false end.

(** ** Values exchanged with the caller and with the upstream API *)

(** A parsed JSON document.  Numbers are kept as integers: the proxy never
    computes on a payload, it only passes it on. *)
Inductive json :=
| JNull
| JBool (b : bool)
| JNumber (n : Z)
| JString (s : string)
| JArray (items : list json)
| JObject (fields : list (string * json)).

(** What a handler sends back: [res.status(code).json(body)]. *)
Record HttpResponse := { statusCode : N; body : json }.

(** The part of an inbound request the handlers read: [req.url] and, on the
    by-id routes, the value Express bound to [:id] ([req.params.id]). *)
Record Request := { url : string; params_id : string }.

(** A settled promise, and a promise together with the time it takes to
    settle (in milliseconds), if it ever does. *)
Inductive Settled (A : Type) :=
| Fulfilled (a : A)
| Rejected (e : JsError).
Arguments Fulfilled {A} a.
Arguments Rejected {A} e.

Inductive Promise (A : Type) :=
| SettlesAfter (delay : N) (s : Settled A)
| NeverSettles.
Arguments SettlesAfter {A} delay s.
Arguments NeverSettles {A}.

(** The [Response] object [fetch] resolves with.  [text] and [json_] are
    the promises returned by [response.text()] and [response.json()]; the
    code reads the body through exactly one of them. *)
Record Response := {
  status : N;
  statusText : string;
  text : Promise string;
  json_ : Promise json
}.

(** [response.ok]: the status is in the range 200-299. *)
Definition ok (r : Response) : bool :=
  ((200 <=? status r) && (status r <=? 299))%N.

(** One outbound call: the arguments [fetch] was given. *)
Record FetchCall := { fetch_url : string; fetch_headers : gmap string string }.

(** The upstream service: how the call it receives is answered. *)
Definition Upstream := FetchCall -> Promise Response.

(** ** One activation of the forwarding helper *)

(** The timer created by [setTimeout(() => controller.abort(), ...)]. *)
Inductive TimerState :=
| NoTimer
| Armed (deadline : N)
| Cleared
| Fired.

Record CallState := {
  now : N;                      (* milliseconds on the event-loop clock *)
  timeout : TimerState;
  aborted : bool;               (* controller.signal.aborted *)
  calls : list FetchCall;       (* outbound calls issued, oldest first *)
  console : list string         (* lines written by console.log / console.error *)
}.

Definition initial : CallState :=
  {| now := 0; timeout := NoTimer; aborted := false; calls := []; console := [] |}.

Definition set_now (t : N) (st : CallState) : CallState :=
  {| now := t; timeout := timeout st; aborted := aborted st;
     calls := calls st; console := console st |}.

Definition set_timeout (ts : TimerState) (st : CallState) : CallState :=
  {| now := now st; timeout := ts; aborted := aborted st;
     calls := calls st; console := console st |}.

Definition set_aborted (b : bool) (st : CallState) : CallState :=
  {| now := now st; timeout := timeout st; aborted := b;
     calls := calls st; console := console st |}.

Definition add_call (c : FetchCall) (st : CallState) : CallState :=
  {| now := now st; timeout := timeout st; aborted := aborted st;
     calls := calls st ++ [c]; console := console st |}.

Definition add_line (l : string) (st : CallState) : CallState :=
  {| now := now st; timeout := timeout st; aborted := aborted st;
     calls := calls st; console := console st ++ [l] |}.

(** How a piece of asynchronous code ends: with a value, with a thrown
    error, or suspended for ever on a promise that never settles. *)
Inductive Completion (A : Type) :=
| Normal (a : A)
| Throw (e : JsError)
| Suspended.
Arguments Normal {A} a.
Arguments Throw {A} e.
Arguments Suspended {A}.

Definition Async (A : Type) : Type := CallState -> Completion A * CallState.

Definition ret {A} (a : A) : Async A := fun st => (Normal a, st).

Definition bind {A B} (m : Async A) (k : A -> Async B) : Async B :=
  fun st =>
    match m st with
    | (Normal a, st') => k a st'
    | (Throw e, st') => (Throw e, st')
    | (Suspended, st') => (Suspended, st')
    end.

Definition throw {A} (e : JsError) : Async A := fun st => (Throw e, st).

(** [try { m } catch (err) { h err }]. *)
Definition tryCatch {A} (m : Async A) (h : JsError -> Async A) : Async A :=
  fun st =>
    match m st with
    | (Throw e, st') => h e st'
    | r => r
    end.

#[global] Instance Async_ret : MRet Async := @ret.
#[global] Instance Async_bind : MBind Async := fun A B k m => bind m k.

Definition console_log (line : string) : Async unit :=
  fun st => (Normal tt, add_line line st).

Definition console_error (line : string) : Async unit :=
  fun st => (Normal tt, add_line line st).

(** [new AbortController()]: a controller whose signal is not aborted. *)
Definition newAbortController : Async unit :=
  fun st => (Normal tt, set_aborted false st).

(** [setTimeout(() => controller.abort(), delay)]. *)
Definition setTimeout (delay : N) : Async unit :=
  fun st => (Normal tt, set_timeout (Armed (now st + delay)) st).

(** [clearTimeout(timeout)]: disarms the timer if it is still pending. *)
Definition clearTimeout : Async unit :=
  fun st =>
    (Normal tt,
     match timeout st with
     | Armed _ => set_timeout Cleared st
     | _ => st
     end).

(** [fetch(url, { headers, signal })]: issues the call, returns its promise. *)
Definition fetch (upstream : Upstream) (u : string) (headers : gmap string string)
  : Async (Promise Response) :=
  fun st =>
    let c := {| fetch_url := u; fetch_headers := headers |} in
    (Normal (upstream c), add_call c st).

(** The [DOMException] an aborted [fetch] rejects with. *)
Definition AbortError : JsError :=
  {| name := "AbortError"; message := "This operation was aborted" |}.

(** The timer fires: [controller.abort()] runs and the operation bound to
    the signal rejects. *)
Definition fire {A} (deadline : N) : Async A :=
  fun st =>
    (Throw AbortError, set_aborted true (set_timeout Fired (set_now deadline st))).

Definition settle {A} (s : Settled A) : Async A :=
  match s with
  | Fulfilled a => ret a
  | Rejected e => throw e
  end.

(** [await p] for a promise bound to the controller's signal (the [fetch]
    and the reading of its body).  While the timer is armed, a promise
    that has not settled strictly before the deadline is overtaken by the
    timer; with no timer armed, a promise that never settles suspends the
    caller for ever. *)
Definition await {A} (p : Promise A) : Async A :=
  fun st =>
    match timeout st, p with
    | Armed deadline, SettlesAfter d s =>
        if (now st + d <? deadline)%N
        then settle s (set_now (now st + d) st)
        else fire deadline st
    | Armed deadline, NeverSettles => fire deadline st
    | _, SettlesAfter d s => settle s (set_now (now st + d) st)
    | _, NeverSettles => (Suspended, st)
    end.

(** ** The forwarding helper *)

Definition baseHeaders : gmap string string :=
  <["Accept" := "application/json"]>
    (<["Content-Type" := "application/json"]> ∅).

Definition requestHeaders (env : ProcessEnv) : gmap string string :=
  if truthy (Some (API_KEY env))
  then <["X-Api-Key" := API_KEY env]> baseHeaders
  else baseHeaders.

(** [async function pokemonApiRequest(endpoint, queryParams = '')].  The
    success path ends in [return response.json()], without [await]: that
    promise settles the call from outside the [try] block. *)
Definition pokemonApiRequest (env : ProcessEnv) (upstream : Upstream)
    (endpoint : string) (queryParams : option string) : Async json :=
  let queryParams := default "" queryParams in
  let url := POKEMON_TCG_API +:+ endpoint +:+ queryParams in
  console_log ("Fetching: " +:+ url) ;;
  let headers := requestHeaders env in
  newAbortController ;;
  setTimeout 30000 ;;
  body ← tryCatch
    (pending ← fetch upstream url headers ;
     response ← await pending ;
     clearTimeout ;;
     if negb (ok response) then
       errorText ← await (text response) ;
       console_error ("API error response: " +:+ errorText) ;;
       throw (Error ("Pokemon TCG API error: " +:+ Number_toString (status response)
                       +:+ " " +:+ statusText response))
     else ret (json_ response))
    (fun err =>
       clearTimeout ;;
       if String.eqb (name err) "AbortError"
       then throw (Error "Request timeout - Pokemon TCG API took too long to respond")
       else throw err) ;
  await body.

(** ** The route handlers *)

(** [res.json(data)] (status 200) and [res.status(500).json({ error, message })]. *)
Definition res_json (data : json) : HttpResponse :=
  {| statusCode := 200; body := data |}.

Definition res_error (label msg : string) : HttpResponse :=
  {| statusCode := 500;
     body := JObject [("error", JString label); ("message", JString msg)] |}.

(** [req.url.includes('?') ? req.url.substring(req.url.indexOf('?')) : ''] *)
Definition queryOf (req : Request) : string :=
  if String_includes (url req) "?"
  then substring (url req) (indexOf (url req) "?")
  else "".

(** [app.get('/api/sets', ...)] *)
Definition getSets (env : ProcessEnv) (upstream : Upstream) (req : Request)
  : Async HttpResponse :=
  tryCatch
    (let queryParams := queryOf req in
     data ← pokemonApiRequest env upstream "/sets" (Some queryParams) ;
     ret (res_json data))
    (fun error =>
       console_error ("Error fetching sets: " +:+ message error) ;;
       ret (res_error "Failed to fetch sets" (message error))).

(** [app.get('/api/sets/:id', ...)] *)
Definition getSetById (env : ProcessEnv) (upstream : Upstream) (req : Request)
  : Async HttpResponse :=
  tryCatch
    (data ← pokemonApiRequest env upstream ("/sets/" +:+ params_id req) None ;
     ret (res_json data))
    (fun error =>
       console_error ("Error fetching set: " +:+ message error) ;;
       ret (res_error "Failed to fetch set" (message error))).

(** [app.get('/api/cards', ...)] *)
Definition getCards (env : ProcessEnv) (upstream : Upstream) (req : Request)
  : Async HttpResponse :=
  tryCatch
    (let queryParams := queryOf req in
     data ← pokemonApiRequest env upstream "/cards" (Some queryParams) ;
     ret (res_json data))
    (fun error =>
       console_error ("Error fetching cards: " +:+ message error) ;;
       ret (res_error "Failed to fetch cards" (message error))).

(** [app.get('/api/cards/:id', ...)] *)
Definition getCardById (env : ProcessEnv) (upstream : Upstream) (req : Request)
  : Async HttpResponse :=
  tryCatch
    (data ← pokemonApiRequest env upstream ("/cards/" +:+ params_id req) None ;
     ret (res_json data))
    (fun error =>
       console_error ("Error fetching card: " +:+ message error) ;;
       ret (res_error "Failed to fetch card" (message error))).

(** The four proxied routes, their handlers and their fixed error labels. *)
Inductive Route := Sets | SetById | Cards | CardById.

Definition handler (r : Route) : ProcessEnv -> Upstream -> Request -> Async HttpResponse :=
  match r with
  | Sets => getSets
  | SetById => getSetById
  | Cards => getCards
  | CardById => getCardById
  end.

Definition errorLabel (r : Route) : string :=
  match r with
  | Sets => "Failed to fetch sets"
  | SetById => "Failed to fetch set"
  | Cards => "Failed to fetch cards"
  | CardById => "Failed to fetch card"
  end.

(** The endpoint and query string a route hands to [pokemonApiRequest]. *)
Definition endpointOf (r : Route) (req : Request) : string :=
  match r with
  | Sets => "/sets"
  | SetById => "/sets/" +:+ params_id req
  | Cards => "/cards"
  | CardById => "/cards/" +:+ params_id req
  end.

Definition queryArgOf (r : Route) (req : Request) : option string :=
  match r with
  | Sets | Cards => Some (queryOf req)
  | SetById | CardById => None
  end.

(** [app.get('/', ...)] *)
Definition getRoot : HttpResponse :=
  res_json (JObject [("status", JString "ok");
                     ("service", JString "Summit Cards Pokemon TCG API Proxy");
                     ("version", JString "1.1.0");
                     ("endpoints",
                      JObject [("sets", JString "/api/sets");
                               ("cards", JString "/api/cards");
                               ("setById", JString "/api/sets/:id");
                               ("cardById", JString "/api/cards/:id")])]).

(** [app.get('/health', ...)]: [clock] is the time value [new Date()]
    reads from the system clock. *)
Definition getHealth (clock : Z) : HttpResponse :=
  res_json (JObject [("status", JString "healthy");
                     ("timestamp", JString (toISOString clock))]).

(** Looking a property up in a JSON object. *)
Fixpoint assoc (k : string) (fields : list (string * json)) : option json :=
  match fields with
  | [] => None
  | (k', v) :: rest => if String.eqb k k' then Some v else assoc k rest
  end.

Definition property (k : string) (j : json) : option json :=
  match j with
  | JObject fields => assoc k fields
  | _ => None
  end.

(** ** Vocabulary for the statements *)

(** [s] occurs inside [t]. *)
Definition contains (t s : string) : Prop :=
  exists before after, t = before +:+ s +:+ after.

(** No character of the string is a question mark. *)
Fixpoint noQuestionMark (s : string) : Prop :=
  match s with
  | EmptyString => True
  | String c rest => c <> "?"%char /\ noQuestionMark rest
  end.

(** The call [pokemonApiRequest endpoint queryParams] hands to [fetch]. *)
Definition outboundCall (env : ProcessEnv) (endpoint : string) (queryParams : option string)
  : FetchCall :=
  {| fetch_url := POKEMON_TCG_API +:+ endpoint +:+ default "" queryParams;
     fetch_headers := requestHeaders env |}.

(** The call a route's handler issues for a request. *)
Definition callOf (r : Route) (env : ProcessEnv) (req : Request) : FetchCall :=
  outboundCall env (endpointOf r req) (queryArgOf r req).

Definition timeoutMessage : string :=
  "Request timeout - Pokemon TCG API took too long to respond".

(** What the helper's [catch] block throws on for a caught error. *)
Definition rethrown (err : JsError) : JsError :=
  if String.eqb (name err) "AbortError" then Error timeoutMessage else err.

Definition statusMessage (r : Response) : string :=
  "Pokemon TCG API error: " +:+ Number_toString (status r)
    +:+ " " +:+ statusText r.

(** The 30-second deadline passes before the promise settles. *)
Definition deadlineFirst {A} (p : Promise A) : Prop :=
  match p with
  | SettlesAfter d _ => (30000 < d)%N
  | NeverSettles => True
  end.

(** Whether the promise settles strictly before [limit] milliseconds. *)
Definition settlesBefore {A} (limit : N) (p : Promise A) : bool :=
  match p with
  | SettlesAfter d _ => (d <? limit)%N
  | NeverSettles => false
  end.

(** The ways a forwarded request fails, with the detail string each one
    carries: the deadline passes, the transport fails, the upstream answers
    with a non-success status (and its body is read), the success body does
    not parse. *)
Inductive UpstreamFailure (p : Promise Response) : string -> Prop :=
| UpstreamTimeout :
    deadlineFirst p -> UpstreamFailure p timeoutMessage
| UpstreamTransportError d e :
    p = SettlesAfter d (Rejected e) -> (d < 30000)%N ->
    UpstreamFailure p (message (rethrown e))
| UpstreamStatusError d r d' txt :
    p = SettlesAfter d (Fulfilled r) -> (d < 30000)%N ->
    ok r = false -> text r = SettlesAfter d' (Fulfilled txt) ->
    UpstreamFailure p (statusMessage r)
| ResponseParseError d r d' e :
    p = SettlesAfter d (Fulfilled r) -> (d < 30000)%N ->
    ok r = true -> json_ r = SettlesAfter d' (Rejected e) ->
    UpstreamFailure p (message e).

(** The responses to successive [GET /health] requests, given the clock
    readings of the successive [new Date()] calls. *)
Definition healthResponses (readings : list Z) : list HttpResponse :=
  map getHealth readings.

Definition timestampOf (resp : HttpResponse) : option json :=
  property "timestamp" (body resp).

(** ** Sample environments and upstream behaviours

    An upstream that answers 404 and whose error body is read without
    trouble, one whose connection breaks while the error body is read, and
    one that never answers. *)
Definition notFound : Upstream := fun _ =>
  SettlesAfter 120
    (Fulfilled {| status := 404; statusText := "Not Found";
                  text := SettlesAfter 3 (Fulfilled "{}");
                  json_ := SettlesAfter 3 (Fulfilled (JObject [])) |}).

Definition notFoundBrokenBody : Upstream := fun _ =>
  SettlesAfter 120
    (Fulfilled {| status := 404; statusText := "Not Found";
                  text := SettlesAfter 3
                            (Rejected {| name := "TypeError"; message := "terminated" |});
                  json_ := SettlesAfter 3 (Fulfilled (JObject [])) |}).

Definition silent : Upstream := fun _ => NeverSettles.

(** An upstream that sends its status line and headers at once and then
    never delivers the body. *)
Definition stalledBody : Upstream := fun _ =>
  SettlesAfter 50
    (Fulfilled {| status := 200; statusText := "OK";
                  text := NeverSettles; json_ := NeverSettles |}).

Definition noKey : ProcessEnv :=
  {| env_PORT := None; env_POKEMON_TCG_API_KEY := None |}.

Definition emptyKey : ProcessEnv :=
  {| env_PORT := None; env_POKEMON_TCG_API_KEY := Some "" |}.

Definition someKey : ProcessEnv :=
  {| env_PORT := None; env_POKEMON_TCG_API_KEY := Some "0123-abcd" |}.

(** ** Further vocabulary: logging, start-up, more sample upstreams *)

(** What a route's [catch] block writes before the error message:
    [console.error('Error fetching sets:', error.message)]. *)
Definition errorLogPrefix (r : Route) : string :=
  match r with
  | Sets => "Error fetching sets: "
  | SetById => "Error fetching set: "
  | Cards => "Error fetching cards: "
  | CardById => "Error fetching card: "
  end.

(** The upstream resource a route reads. *)
Definition resourceOf (r : Route) : string :=
  match r with
  | Sets | SetById => "/sets"
  | Cards | CardById => "/cards"
  end.

(** The template literal [${PORT}]. *)
Definition portString (env : ProcessEnv) : string :=
  match PORT env with
  | inl s => s
  | inr n => Number_toString n
  end.

(** The two lines the [app.listen] callback writes. *)
Definition startupLog (env : ProcessEnv) : list string :=
  [ "Summit Cards Backend v1.1.0 running on port " +:+ portString env;
    "API Key configured: "
      +:+ (if truthy (Some (API_KEY env)) then "Yes" else "No (using default rate limits)") ].

(** An upstream that answers 200 with a one-card payload; one whose
    transport fails at once with an error that happens to be named
    [AbortError]; one whose 200 body fails to parse with such an error. *)
Definition onePayload : json :=
  JObject [("data", JArray [JObject [("id", JString "base1-4")]])].

Definition answers : Upstream := fun _ =>
  SettlesAfter 80
    (Fulfilled {| status := 200; statusText := "OK";
                  text := SettlesAfter 2 (Fulfilled "");
                  json_ := SettlesAfter 2 (Fulfilled onePayload) |}).

Definition abortNamed : JsError :=
  {| name := "AbortError"; message := "socket closed" |}.

Definition failsAbortNamed : Upstream := fun _ => SettlesAfter 10 (Rejected abortNamed).

Definition parseAbortNamed : Upstream := fun _ =>
  SettlesAfter 80
    (Fulfilled {| status := 200; statusText := "OK";
                  text := SettlesAfter 2 (Fulfilled "");
                  json_ := SettlesAfter 2 (Rejected abortNamed) |}).

(** * Properties *)

(** ** Strings *)

Section Strings.

Lemma append_nil_l (s : string) : "" +:+ s = s.
Proof. reflexivity. Qed.

Lemma append_cons (c : ascii) (s rest : string) :
  String c s +:+ rest = String c (s +:+ rest).
Proof. reflexivity. Qed.

Lemma append_nil_r (s : string) : s +:+ "" = s.
Proof.
  induction s as [|c s IH]; [reflexivity|]. now rewrite append_cons, IH.
Qed.

Lemma append_assoc (a b c : string) : (a +:+ b) +:+ c = a +:+ b +:+ c.
Proof.
  induction a as [|x a IH]; [reflexivity|]. now rewrite !append_cons, IH.
Qed.

Lemma indexOf_from_absent (p : string) (i : Z) :
  noQuestionMark p -> indexOf_from "?" p i = -1.
Proof.
  revert i. induction p as [|c p IH]; intros i H; [reflexivity|].
  destruct H as [Hc Hp]. cbn [indexOf_from String.prefix].
  destruct (Ascii.ascii_dec "?" c) as [E|_]; [congruence|]. now apply IH.
Qed.

Lemma indexOf_from_first (p rest : string) (i : Z) :
  noQuestionMark p ->
  indexOf_from "?" (p +:+ String "?" rest) i = i + Z.of_nat (String.length p).
Proof.
  revert i. induction p as [|c p IH]; intros i H.
  - rewrite append_nil_l. destruct rest; cbn; lia.
  - destruct H as [Hc Hp]. rewrite append_cons.
    cbn [indexOf_from String.prefix].
    destruct (Ascii.ascii_dec "?" c) as [E|_]; [congruence|].
    rewrite IH by assumption. cbn [String.length]. lia.
Qed.

Lemma drop_chars_prefix (p rest : string) :
  drop_chars (String.length p) (p +:+ rest) = rest.
Proof. induction p as [|c p IH]; [reflexivity | exact IH]. Qed.

(** The expression the collection routes use to take the query string off
    [req.url]: everything from the first question mark on. *)
Lemma queryOf_without (p pid : string) :
  noQuestionMark p -> queryOf {| url := p; params_id := pid |} = "".
Proof.
  intros H. unfold queryOf, String_includes, indexOf. cbn [url].
  now rewrite indexOf_from_absent.
Qed.

Lemma queryOf_with (p q pid : string) :
  noQuestionMark p ->
  queryOf {| url := p +:+ String "?" q; params_id := pid |} = String "?" q.
Proof.
  intros H. unfold queryOf, String_includes, indexOf, substring. cbn [url].
  rewrite indexOf_from_first by assumption.
  destruct (Z.eqb_spec (0 + Z.of_nat (String.length p)) (-1)) as [E|_]; [lia|].
  cbn [negb].
  replace (Z.to_nat (Z.max 0 (0 + Z.of_nat (String.length p)))) with (String.length p) by lia.
  apply drop_chars_prefix.
Qed.

(** Every URL is a part without question mark followed by its query
    string, which is empty or begins with the first question mark. *)
Lemma url_decomposition (u : string) :
  exists path query : string,
    u = path +:+ query /\ noQuestionMark path
    /\ (query = "" \/ exists rest : string, query = String "?" rest).
Proof.
  induction u as [|c u (path & query & -> & Hp & Hq)].
  - exists "", "". repeat split. now left.
  - destruct (Ascii.ascii_dec c "?") as [->|Hc].
    + exists "", (String "?" (path +:+ query)). repeat split. right. eauto.
    + exists (String c path), query. repeat split; assumption.
Qed.

End Strings.

(** ** Dates *)

Example iso_epoch : toISOString 0 = "1970-01-01T00:00:00.000Z".
Proof. reflexivity. Qed.
Example iso_leap_day : toISOString 951782400000 = "2000-02-29T00:00:00.000Z".
Proof. reflexivity. Qed.
Example iso_before_epoch : toISOString (-1) = "1969-12-31T23:59:59.999Z".
Proof. reflexivity. Qed.
Example iso_max : toISOString maxTime = "+275760-09-13T00:00:00.000Z".
Proof. reflexivity. Qed.
Example iso_min : toISOString (- maxTime) = "-271821-04-20T00:00:00.000Z".
Proof. reflexivity. Qed.
Example parse_rejects_day_31 : parseISO "2023-02-31T00:00:00.000Z" = None.
Proof. reflexivity. Qed.
Example parse_rejects_text : parseISO "yesterday" = None.
Proof. reflexivity. Qed.


Section DateArith.
Local Ltac divmod := Z.div_mod_to_equations; lia.

Lemma DayFromYear_succ (y : Z) : DayFromYear (y + 1) = DayFromYear y + DaysInYear y.
Proof.
  unfold DayFromYear, DaysInYear.
  repeat match goal with |- context [Z.eqb ?a ?b] => destruct (Z.eqb_spec a b) end;
    cbn [negb]; divmod.
Qed.

Lemma YearFromTime_spec (t : Z) :
  DayFromYear (YearFromTime t) <= Day t < DayFromYear (YearFromTime t + 1).
Proof.
  unfold YearFromTime. generalize (Day t) as d. intros d. cbv zeta.
  destruct (Z.ltb_spec d (DayFromYear (1970 + 400 * d / 146097))) as [H1|H1];
    [| destruct (Z.leb_spec (DayFromYear (1970 + 400 * d / 146097 + 1)) d) as [H2|H2]].
  - replace (1970 + 400 * d / 146097 - 1 + 1) with (1970 + 400 * d / 146097) by lia.
    split; [| exact H1]. clear H1. unfold DayFromYear. divmod.
  - split; [exact H2|]. clear H1 H2. unfold DayFromYear. divmod.
  - lia.
Qed.

Lemma DayFromYear_mono (y y' : Z) : y <= y' -> DayFromYear y <= DayFromYear y'.
Proof. intros H. unfold DayFromYear. divmod. Qed.

(** [YearFromTime t] is the largest year that has begun by [t]. *)
Lemma YearFromTime_largest (t y : Z) :
  TimeFromYear y <= t <-> y <= YearFromTime t.
Proof.
  pose proof (YearFromTime_spec t) as [Hlo Hhi].
  assert (Hday : TimeFromYear y <= t <-> DayFromYear y <= Day t).
  { unfold TimeFromYear, Day, msPerDay. generalize (DayFromYear y). intros k. divmod. }
  rewrite Hday. split; intros H.
  - destruct (Z_le_gt_dec y (YearFromTime t)) as [|Hgt]; [assumption|].
    pose proof (DayFromYear_mono (YearFromTime t + 1) y ltac:(lia)). lia.
  - pose proof (DayFromYear_mono y (YearFromTime t) H). lia.
Qed.

Lemma DayWithinYear_range (t : Z) :
  0 <= DayWithinYear t < 365 + InLeapYear t.
Proof.
  pose proof (YearFromTime_spec t) as H.
  rewrite DayFromYear_succ in H.
  unfold DayWithinYear, InLeapYear.
  assert (DaysInYear (YearFromTime t) = 365 \/ DaysInYear (YearFromTime t) = 366) as [E|E].
  { unfold DaysInYear.
    repeat match goal with |- context [Z.eqb ?a ?b] => destruct (Z.eqb_spec a b) end;
      cbn [negb]; lia. }
  all: rewrite E in *; cbn; lia.
Qed.

Lemma YearFromTime_range (t : Z) :
  - maxTime <= t <= maxTime -> -271821 <= YearFromTime t <= 275760.
Proof.
  intros Ht. pose proof (YearFromTime_spec t) as H.
  unfold Day, msPerDay, maxTime in *.
  unfold DayFromYear in H. divmod.
Qed.

Lemma monthOfDay_range (d leap : Z) : 0 <= monthOfDay d leap <= 11.
Proof.
  unfold monthOfDay.
  repeat match goal with |- context [Z.ltb ?a ?b] => destruct (Z.ltb a b) end; lia.
Qed.

Lemma dateOfDay_spec (d leap : Z) :
  0 <= leap <= 1 -> 0 <= d < 365 + leap ->
  daysBeforeMonth (monthOfDay d leap) leap + dateOfDay d leap - 1 = d
  /\ 1 <= dateOfDay d leap <= daysInMonth (monthOfDay d leap) leap.
Proof.
  intros Hl Hd. unfold dateOfDay, monthOfDay.
  repeat match goal with |- context [Z.ltb ?a ?b] => destruct (Z.ltb_spec a b) end;
    cbn [daysBeforeMonth daysInMonth]; lia.
Qed.

Lemma time_fields (t : Z) :
  MakeDate (Day t) (MakeTime (HourFromTime t) (MinFromTime t) (SecFromTime t) (msFromTime t)) = t
  /\ 0 <= HourFromTime t <= 23 /\ 0 <= MinFromTime t <= 59
  /\ 0 <= SecFromTime t <= 59 /\ 0 <= msFromTime t <= 999.
Proof.
  unfold MakeDate, MakeTime, Day, HourFromTime, MinFromTime, SecFromTime, msFromTime,
    msPerDay, msPerHour, msPerMinute, msPerSecond.
  divmod.
Qed.
End DateArith.

Section DateStrings.

Lemma digitValue_digit (n : Z) : 0 <= n <= 9 -> digitValue (digit n) = Some n.
Proof.
  intros H. replace n with (Z.of_nat (Z.to_nat n)) by lia.
  assert (Hm : (Z.to_nat n < 10)%nat) by lia.
  revert Hm. generalize (Z.to_nat n) as m. clear. intros m Hm.
  do 10 (destruct m as [|m]; [reflexivity|]). lia.
Qed.

Lemma digit_not_sign (n : Z) :
  0 <= n <= 9 -> Ascii.eqb (digit n) "+" = false /\ Ascii.eqb (digit n) "-" = false.
Proof.
  intros H. replace n with (Z.of_nat (Z.to_nat n)) by lia.
  assert (Hm : (Z.to_nat n < 10)%nat) by lia.
  revert Hm. generalize (Z.to_nat n) as m. clear. intros m Hm.
  do 10 (destruct m as [|m]; [split; reflexivity|]). lia.
Qed.

Lemma padded_succ (w : nat) (n : Z) :
  padded (S w) n = String (digit (n / 10 ^ Z.of_nat w)) (padded w (n mod 10 ^ Z.of_nat w)).
Proof. reflexivity. Qed.

Lemma readDigits_succ (w : nat) (acc : Z) (c : ascii) (rest : string) :
  readDigits (S w) acc (String c rest) =
  match digitValue c with
  | Some v => readDigits w (10 * acc + v) rest
  | None => None
  end.
Proof. reflexivity. Qed.

Lemma readDigits_padded (w : nat) :
  forall (n acc : Z) (rest : string),
    0 <= n < 10 ^ Z.of_nat w ->
    readDigits w acc (padded w n +:+ rest) = Some (acc * 10 ^ Z.of_nat w + n, rest).
Proof.
  induction w as [|w IH]; intros n acc rest Hn.
  - cbn in *. f_equal. f_equal. lia.
  - rewrite padded_succ.
    assert (Hp : 0 < 10 ^ Z.of_nat w) by (apply Z.pow_pos_nonneg; lia).
    assert (Hs : 10 ^ Z.of_nat (S w) = 10 * 10 ^ Z.of_nat w)
      by (rewrite Nat2Z.inj_succ, Z.pow_succ_r; lia).
    rewrite Hs in *.
    assert (Hq : 0 <= n / 10 ^ Z.of_nat w <= 9).
    { split; [apply Z.div_pos; lia|].
      enough (n / 10 ^ Z.of_nat w < 10) by lia.
      apply Z.div_lt_upper_bound; lia. }
    rewrite append_cons, readDigits_succ, (digitValue_digit _ Hq).
    rewrite IH by (apply Z.mod_pos_bound; lia).
    f_equal. f_equal.
    pose proof (Z.div_mod n (10 ^ Z.of_nat w)) as Hdm. nia.
Qed.

Lemma readYear_yearString (y : Z) (rest : string) :
  -999999 <= y <= 999999 ->
  readYear (yearString y +:+ rest) = Some (y, rest).
Proof.
  intros Hy. unfold yearString.
  destruct (Z.leb_spec 0 y) as [H0|H0]; [destruct (Z.leb_spec y 9999) as [H1|H1]|];
    cbn [andb].
  - assert (Hq : 0 <= y / 10 ^ Z.of_nat 3 <= 9) by (cbn; Z.div_mod_to_equations; lia).
    pose proof (readDigits_padded 4 y 0 rest) as R.
    rewrite padded_succ, append_cons in *. unfold readYear.
    destruct (digit_not_sign _ Hq) as [-> ->].
    rewrite R by (cbn; lia). f_equal.
  - destruct (Z.ltb_spec y 0); [lia|].
    change (readDigits 6 0 (padded 6 (Z.abs y) +:+ rest) = Some (y, rest)).
    rewrite readDigits_padded by (cbn; lia). f_equal. f_equal. lia.
  - destruct (Z.ltb_spec y 0); [|lia].
    change (match readDigits 6 0 (padded 6 (Z.abs y) +:+ rest) with
            | Some (y', rest') => if y' =? 0 then None else Some (- y', rest')
            | None => None
            end = Some (y, rest)).
    rewrite readDigits_padded by (cbn; lia).
    destruct (Z.eqb_spec (0 * 10 ^ Z.of_nat 6 + Z.abs y) 0); [lia|].
    f_equal. f_equal. lia.
Qed.

End DateStrings.

Section RoundTrip.

Lemma expect_literal (c : ascii) (rest : string) :
  expect c (String c "" +:+ rest) = Some rest.
Proof.
  change (String c "" +:+ rest) with (String c rest).
  unfold expect. now rewrite Ascii.eqb_refl.
Qed.

Lemma MakeDay_fields (t : Z) :
  MakeDay (YearFromTime t) (MonthFromTime t) (DateFromTime t) = Day t.
Proof.
  pose proof (DayWithinYear_range t) as Hd.
  assert (Hl : 0 <= InLeapYear t <= 1)
    by (unfold InLeapYear; destruct (_ =? _); lia).
  destruct (dateOfDay_spec _ _ Hl Hd) as [Hday _].
  unfold MakeDay, MonthFromTime, DateFromTime.
  fold (InLeapYear t). cbv zeta. unfold DayWithinYear in Hday at 3. lia.
Qed.

Lemma DateFromTime_range (t : Z) :
  1 <= DateFromTime t <= daysInMonth (MonthFromTime t) (InLeapYear t)
  /\ DateFromTime t <= 31.
Proof.
  pose proof (DayWithinYear_range t) as Hd.
  assert (Hl : 0 <= InLeapYear t <= 1)
    by (unfold InLeapYear; destruct (_ =? _); lia).
  destruct (dateOfDay_spec _ _ Hl Hd) as [_ Hdate].
  unfold DateFromTime, MonthFromTime. split; [exact Hdate|].
  enough (daysInMonth (monthOfDay (DayWithinYear t) (InLeapYear t)) (InLeapYear t) <= 31) by lia.
  unfold daysInMonth.
  repeat match goal with |- context [match ?m with _ => _ end] => destruct m end; lia.
Qed.

(** Reading back what [toISOString] printed gives the time value again. *)
Theorem parseISO_toISOString (t : Z) :
  - maxTime <= t <= maxTime -> parseISO (toISOString t) = Some t.
Proof.
  intros Ht.
  pose proof (YearFromTime_range t Ht) as Hy.
  pose proof (monthOfDay_range (DayWithinYear t) (InLeapYear t)) as Hm.
  fold (MonthFromTime t) in Hm.
  destruct (DateFromTime_range t) as [Hdate Hdate'].
  destruct (time_fields t) as (Hmk & Hh & Hmi & Hs & Hms).
  unfold parseISO, toISOString.
  rewrite readYear_yearString by lia. cbn [mbind option_bind].
  repeat (rewrite expect_literal; cbn [mbind option_bind];
          rewrite readDigits_padded
            by (first [change (10 ^ Z.of_nat 2) with 100 | change (10 ^ Z.of_nat 3) with 1000]; lia);
          cbn [mbind option_bind]).
  rewrite Z.mul_0_l, !Z.add_0_l.
  change (expect "Z" "Z") with (Some ""). cbn [mbind option_bind].
  replace (MonthFromTime t + 1 - 1) with (MonthFromTime t) by lia.
  fold (InLeapYear t). cbv zeta.
  change (String.eqb "" "") with true.
  repeat match goal with
         | |- context [Z.leb ?a ?b] => destruct (Z.leb_spec a b); [|lia]
         end.
  cbn [andb]. rewrite MakeDay_fields, Hmk.
  unfold TimeClip. destruct (Z.leb_spec (Z.abs t) maxTime); [reflexivity | lia].
Qed.

Corollary toISOString_inj (t1 t2 : Z) :
  - maxTime <= t1 <= maxTime -> - maxTime <= t2 <= maxTime ->
  toISOString t1 = toISOString t2 -> t1 = t2.
Proof.
  intros H1 H2 E. apply parseISO_toISOString in H1, H2.
  rewrite E in H1. congruence.
Qed.

End RoundTrip.

(** ** The forwarding helper *)

Section Forwarding.

Variables (env : ProcessEnv) (upstream : Upstream).

Lemma deadline_cmp (a d : N) : ((a + d <? a + 30000) = (d <? 30000))%N.
Proof.
  destruct (N.ltb_spec d 30000), (N.ltb_spec (a + d) (a + 30000)); lia.
Qed.

Ltac exec :=
  unfold pokemonApiRequest, mbind, Async_bind, bind, tryCatch, fetch, await,
    newAbortController, setTimeout, clearTimeout, console_log, console_error,
    throw, ret, settle, fire;
  cbn -[requestHeaders N.add N.ltb Number_toString].

Ltac split_on_upstream :=
  repeat (cbn -[requestHeaders N.add N.ltb Number_toString];
          match goal with
          | |- context [match upstream ?c with _ => _ end] => destruct (upstream c) as [? [?|?]|]
          | |- context [match text ?r with _ => _ end] => destruct (text r) as [? [?|?]|]
          | |- context [match json_ ?r with _ => _ end] => destruct (json_ r) as [? [?|?]|]
          | |- context [if N.ltb ?a ?b then _ else _] => destruct (N.ltb a b)
          | |- context [if negb (ok ?r) then _ else _] => destruct (ok r)
          | |- context [if String.eqb ?a ?b then _ else _] => destruct (String.eqb a b)
          end).

(** The helper issues exactly one call, whatever the upstream does. *)
Lemma helper_calls (endpoint : string) (q : option string) (st : CallState) :
  calls (snd (pokemonApiRequest env upstream endpoint q st))
  = calls st ++ [outboundCall env endpoint q].
Proof. unfold outboundCall. exec. split_on_upstream; reflexivity. Qed.

(** Where the helper leaves its timer. *)
Lemma helper_timer (endpoint : string) (q : option string) (st : CallState) :
  timeout (snd (pokemonApiRequest env upstream endpoint q st))
  = if settlesBefore 30000 (upstream (outboundCall env endpoint q))
    then Cleared else Fired.
Proof.
  unfold outboundCall, settlesBefore. exec.
  destruct (upstream _) as [d [r|e]|]; [..|reflexivity];
    rewrite deadline_cmp; destruct (N.ltb d 30000);
    split_on_upstream; reflexivity.
Qed.

Lemma helper_timeout (endpoint : string) (q : option string) (st : CallState) :
  deadlineFirst (upstream (outboundCall env endpoint q)) ->
  exists st',
    pokemonApiRequest env upstream endpoint q st = (Throw (Error timeoutMessage), st')
    /\ now st' = (now st + 30000)%N /\ aborted st' = true /\ timeout st' = Fired.
Proof.
  intros H. unfold outboundCall, deadlineFirst in H. exec.
  destruct (upstream _) as [d s|].
  - rewrite deadline_cmp. destruct (N.ltb_spec d 30000); [lia|].
    cbn. eexists; repeat split.
  - cbn. eexists; repeat split.
Qed.

Lemma helper_transport_error (endpoint : string) (q : option string) (st : CallState)
    (d : N) (e : JsError) :
  upstream (outboundCall env endpoint q) = SettlesAfter d (Rejected e) ->
  (d < 30000)%N ->
  fst (pokemonApiRequest env upstream endpoint q st) = Throw (rethrown e).
Proof.
  intros H Hd. unfold outboundCall in H. exec. rewrite H, deadline_cmp.
  destruct (N.ltb_spec d 30000); [|lia]. unfold rethrown.
  cbn. destruct (String.eqb (name e) "AbortError"); reflexivity.
Qed.

Lemma helper_status_error (endpoint : string) (q : option string) (st : CallState)
    (d d' : N) (r : Response) (txt : string) :
  upstream (outboundCall env endpoint q) = SettlesAfter d (Fulfilled r) ->
  (d < 30000)%N -> ok r = false -> text r = SettlesAfter d' (Fulfilled txt) ->
  fst (pokemonApiRequest env upstream endpoint q st) = Throw (Error (statusMessage r)).
Proof.
  intros H Hd Hok Htxt. unfold outboundCall in H. exec. rewrite H, deadline_cmp.
  destruct (N.ltb_spec d 30000); [|lia].
  cbn -[Number_toString]. rewrite Hok. cbn -[Number_toString]. rewrite Htxt.
  reflexivity.
Qed.

Lemma helper_body_error (endpoint : string) (q : option string) (st : CallState)
    (d d' : N) (r : Response) (e : JsError) :
  upstream (outboundCall env endpoint q) = SettlesAfter d (Fulfilled r) ->
  (d < 30000)%N -> ok r = false -> text r = SettlesAfter d' (Rejected e) ->
  fst (pokemonApiRequest env upstream endpoint q st) = Throw (rethrown e).
Proof.
  intros H Hd Hok Htxt. unfold outboundCall in H. exec. rewrite H, deadline_cmp.
  destruct (N.ltb_spec d 30000); [|lia].
  cbn -[Number_toString]. rewrite Hok. cbn -[Number_toString]. rewrite Htxt.
  unfold rethrown. cbn. destruct (String.eqb (name e) "AbortError"); reflexivity.
Qed.

Lemma helper_body_settles (endpoint : string) (q : option string) (st : CallState)
    (d d' : N) (r : Response) (s : Settled json) :
  upstream (outboundCall env endpoint q) = SettlesAfter d (Fulfilled r) ->
  (d < 30000)%N -> ok r = true -> json_ r = SettlesAfter d' s ->
  fst (pokemonApiRequest env upstream endpoint q st)
  = match s with Fulfilled v => Normal v | Rejected e => Throw e end.
Proof.
  intros H Hd Hok Hjs. unfold outboundCall in H. exec. rewrite H, deadline_cmp.
  destruct (N.ltb_spec d 30000); [|lia].
  cbn. rewrite Hok. cbn. rewrite Hjs. destruct s; reflexivity.
Qed.

(** Every way of failing, with its detail string. *)
Lemma helper_failure (endpoint : string) (q : option string) (st : CallState)
    (detail : string) :
  UpstreamFailure (upstream (outboundCall env endpoint q)) detail ->
  exists e, fst (pokemonApiRequest env upstream endpoint q st) = Throw e
            /\ message e = detail.
Proof.
  intros [Hdl | d e H Hd | d r d' txt H Hd Hok Htxt | d r d' e H Hd Hok Hjs].
  - destruct (helper_timeout endpoint q st Hdl) as (st' & E & _).
    rewrite E. eexists; split; reflexivity.
  - rewrite (helper_transport_error _ _ _ _ _ H Hd). eauto.
  - rewrite (helper_status_error _ _ _ _ _ _ _ H Hd Hok Htxt). eauto.
  - rewrite (helper_body_settles _ _ _ _ _ _ _ H Hd Hok Hjs). eauto.
Qed.

(** A handler is its call to the helper followed by [res.json] or by the
    500 response of its [catch] block. *)
Lemma handler_result (r : Route) (req : Request) (st : CallState) :
  fst (handler r env upstream req st)
  = match fst (pokemonApiRequest env upstream (endpointOf r req) (queryArgOf r req) st) with
    | Normal data => Normal (res_json data)
    | Throw e => Normal (res_error (errorLabel r) (message e))
    | Suspended => Suspended
    end.
Proof.
  destruct r; unfold handler, getSets, getSetById, getCards, getCardById,
    endpointOf, queryArgOf, tryCatch, mbind, Async_bind, bind;
    destruct (pokemonApiRequest _ _ _ _ _) as [[data|e|] st']; reflexivity.
Qed.

(** No error escapes a handler: it answers, or it waits for ever. *)
Lemma handler_never_throws (r : Route) (req : Request) (st : CallState) (e : JsError) :
  fst (handler r env upstream req st) <> Throw e.
Proof.
  rewrite handler_result.
  destruct (fst (pokemonApiRequest _ _ _ _ _)); discriminate.
Qed.

Lemma handler_state (r : Route) (req : Request) (st : CallState) :
  let st' := snd (handler r env upstream req st) in
  let st0 := snd (pokemonApiRequest env upstream (endpointOf r req) (queryArgOf r req) st) in
  calls st' = calls st0 /\ timeout st' = timeout st0
  /\ now st' = now st0 /\ aborted st' = aborted st0.
Proof.
  destruct r; unfold handler, getSets, getSetById, getCards, getCardById,
    endpointOf, queryArgOf, tryCatch, mbind, Async_bind, bind;
    destruct (pokemonApiRequest _ _ _ _ _) as [[data|e|] st']; cbn; auto.
Qed.

End Forwarding.

(** ** Substrings *)

Section Substrings.

Lemma prefix_append (s t : string) : String.prefix s (s +:+ t) = true.
Proof.
  induction s as [|c s IH]; [now destruct t|].
  rewrite append_cons. cbn [String.prefix].
  destruct (Ascii.ascii_dec c c) as [_|n]; [exact IH | now destruct n].
Qed.

Lemma indexOf_from_found (s before rest : string) :
  forall i, 0 <= i -> 0 <= indexOf_from s (before +:+ s +:+ rest) i.
Proof.
  induction before as [|c before IH]; intros i Hi.
  - rewrite append_nil_l.
    destruct (s +:+ rest) eqn:E; cbn [indexOf_from];
      rewrite <- E, prefix_append; exact Hi.
  - rewrite append_cons. cbn [indexOf_from].
    destruct (String.prefix s _); [exact Hi | apply IH; lia].
Qed.

(** What occurs in a string is found by [String.prototype.includes]. *)
Lemma contains_includes (t s : string) : contains t s -> String_includes t s = true.
Proof.
  intros (before & rest & ->). unfold String_includes, indexOf.
  pose proof (indexOf_from_found s before rest 0 ltac:(lia)) as H.
  destruct (Z.eqb_spec (indexOf_from s (before +:+ s +:+ rest) 0) (-1)); [lia | reflexivity].
Qed.

Lemma statusMessage_contains (r : Response) :
  contains (statusMessage r) (Number_toString (status r))
  /\ contains (statusMessage r) (statusText r).
Proof.
  unfold statusMessage, contains. split.
  - exists "Pokemon TCG API error: ", (" " +:+ statusText r). reflexivity.
  - exists ("Pokemon TCG API error: " +:+ Number_toString (status r) +:+ " "), "".
    now rewrite append_nil_r, !append_assoc.
Qed.

Lemma timeoutMessage_says_timeout : contains timeoutMessage "timeout".
Proof.
  exists "Request ", " - Pokemon TCG API took too long to respond". reflexivity.
Qed.

End Substrings.

(** ** The origin gate *)

Section OriginGate.

Lemma Array_includes_In (arr : list string) (x : string) :
  Array_includes arr x = true <-> In x arr.
Proof.
  induction arr as [|y arr IH]; cbn [Array_includes In].
  - split; [discriminate | tauto].
  - destruct (String.eqb_spec y x) as [->|Hne].
    + tauto.
    + rewrite IH. split; [tauto | intros [E|H]; [congruence | exact H]].
Qed.

Lemma truthy_nonempty (o : string) : o <> "" -> truthy (Some o) = true.
Proof.
  intros H. unfold truthy. destruct (String.eqb_spec o ""); [congruence | reflexivity].
Qed.

End OriginGate.

(** C1, as the code has it: a request with no [Origin] header, or with an
    empty one, is allowed whatever the allow-list holds; a request with a
    non-empty [Origin] header is allowed exactly when its value is one of
    the entries of the allow-list, and denied otherwise. *)
Theorem origin_gate_decision (allowed : list string) :
  isAllowed (corsOrigin allowed None) = true
  /\ isAllowed (corsOrigin allowed (Some "")) = true
  /\ (forall o : string,
        o <> "" -> isAllowed (corsOrigin allowed (Some o)) = true <-> In o allowed).
Proof.
  split; [reflexivity|]. split; [reflexivity|].
  intros o Ho. unfold corsOrigin, isAllowed.
  rewrite (truthy_nonempty o Ho). cbn.
  rewrite <- Array_includes_In.
  destruct (Array_includes allowed o); cbn; split; congruence.
Qed.

Lemma origin_gate_decision_witness :
  "http://localhost:3000" <> ""
  /\ (isAllowed (originCallback (Some "http://localhost:3000")) = true
      <-> In "http://localhost:3000" allowedOrigins).
Proof.
  split; [discriminate|].
  apply (proj2 (proj2 (origin_gate_decision allowedOrigins))). discriminate.
Defined.

(** C1 as stated fails for a header that is present but empty: the request
    is allowed although the empty string is no entry of the allow-list. *)
Lemma origin_gate_empty_header :
  ~ (isAllowed (originCallback (Some "")) = true <-> In "" allowedOrigins).
Proof.
  intros [H _]. specialize (H eq_refl). cbn in H.
  repeat destruct H as [H|H]; try discriminate H. exact H.
Qed.

(** ** Failures of a forwarded request *)

(** C2, as the code has it: whichever way a forwarded request fails
    (deadline, transport failure, non-success status, unparsable body), the
    caller receives status 500 with the body
    [{ error: <label of the route>, message: <detail> }]; the upstream
    status is not forwarded.  When the upstream answers with a non-success
    status and its error body is read to the end, the detail contains the
    upstream status code and reason phrase. *)
Theorem error_normalization (r : Route) (env : ProcessEnv) (upstream : Upstream)
    (req : Request) (st : CallState) :
  (forall e : JsError,
      fst (pokemonApiRequest env upstream (endpointOf r req) (queryArgOf r req) st) = Throw e ->
      fst (handler r env upstream req st)
      = Normal {| statusCode := 500;
                  body := JObject [("error", JString (errorLabel r));
                                   ("message", JString (message e))] |})
  /\ (forall detail : string,
        UpstreamFailure (upstream (callOf r env req)) detail ->
        fst (handler r env upstream req st)
        = Normal {| statusCode := 500;
                    body := JObject [("error", JString (errorLabel r));
                                     ("message", JString detail)] |})
  /\ (forall (d d' : N) (resp : Response) (txt : string),
        upstream (callOf r env req) = SettlesAfter d (Fulfilled resp) ->
        (d < 30000)%N -> ok resp = false ->
        text resp = SettlesAfter d' (Fulfilled txt) ->
        exists detail : string,
          fst (handler r env upstream req st)
          = Normal {| statusCode := 500;
                      body := JObject [("error", JString (errorLabel r));
                                       ("message", JString detail)] |}
          /\ contains detail (Number_toString (status resp))
          /\ contains detail (statusText resp)).
Proof.
  assert (Hfail : forall detail : string,
             UpstreamFailure (upstream (callOf r env req)) detail ->
             fst (handler r env upstream req st)
             = Normal (res_error (errorLabel r) detail)).
  { intros detail H. rewrite handler_result.
    destruct (helper_failure env upstream _ _ st detail H) as (e & -> & <-).
    reflexivity. }
  split; [intros e He; now rewrite handler_result, He|].
  split; [exact Hfail|].
  intros d d' resp txt H Hd Hok Htxt. exists (statusMessage resp).
  split; [|apply statusMessage_contains].
  apply Hfail. eapply UpstreamStatusError; eauto.
Qed.

Lemma error_normalization_witness :
  fst (getCards someKey notFound {| url := "/api/cards?q=name:pikachu"; params_id := "" |} initial)
  = Normal {| statusCode := 500;
              body := JObject [("error", JString "Failed to fetch cards");
                               ("message", JString "Pokemon TCG API error: 404 Not Found")] |}.
Proof.
  apply (proj1 (proj2 (error_normalization Cards someKey notFound
                  {| url := "/api/cards?q=name:pikachu"; params_id := "" |} initial))
           "Pokemon TCG API error: 404 Not Found").
  apply (UpstreamStatusError _ 120
           {| status := 404; statusText := "Not Found";
              text := SettlesAfter 3 (Fulfilled "{}");
              json_ := SettlesAfter 3 (Fulfilled (JObject [])) |} 3 "{}");
    reflexivity.
Defined.

(** C2 as stated fails when the upstream answers 404 and the reading of
    its error body fails: the caller receives 500, but the message is the
    one of the read error and does not mention the status. *)
Lemma error_message_without_status :
  ~ (exists (resp : HttpResponse) (msg : string),
        fst (getSets noKey notFoundBrokenBody {| url := "/api/sets"; params_id := "" |} initial)
        = Normal resp
        /\ property "message" (body resp) = Some (JString msg)
        /\ contains msg "404").
Proof.
  intros (resp & msg & Hr & Hm & Hc).
  vm_compute in Hr. injection Hr as <-.
  cbn in Hm. injection Hm as <-.
  apply contains_includes in Hc. discriminate Hc.
Qed.

(** ** The deadline *)

(** C6: the call is issued under a 30000 ms timer; when the deadline
    passes before the upstream has answered, the timer fires, the call is
    aborted, and the caller receives, at the 30-second mark, a 500 response
    whose message is the timeout message. *)
Theorem timeout_behaviour (r : Route) (env : ProcessEnv) (upstream : Upstream)
    (req : Request) (st : CallState) :
  deadlineFirst (upstream (callOf r env req)) ->
  fst (handler r env upstream req st)
  = Normal {| statusCode := 500;
              body := JObject [("error", JString (errorLabel r));
                               ("message", JString timeoutMessage)] |}
  /\ contains timeoutMessage "timeout"
  /\ aborted (snd (handler r env upstream req st)) = true
  /\ timeout (snd (handler r env upstream req st)) = Fired
  /\ now (snd (handler r env upstream req st)) = (now st + 30000)%N.
Proof.
  intros H.
  destruct (helper_timeout env upstream _ _ st H) as (st' & E & Hnow & Hab & Htm).
  destruct (handler_state env upstream r req st) as (_ & Ht & Hn & Ha).
  rewrite handler_result, Ht, Hn, Ha, E. cbn [fst snd].
  repeat split; auto using timeoutMessage_says_timeout.
Qed.

Lemma timeout_behaviour_witness :
  fst (getSetById noKey silent {| url := "/api/sets/base1"; params_id := "base1" |} initial)
  = Normal {| statusCode := 500;
              body := JObject [("error", JString "Failed to fetch set");
                               ("message", JString timeoutMessage)] |}.
Proof.
  apply (timeout_behaviour SetById noKey silent
           {| url := "/api/sets/base1"; params_id := "base1" |} initial).
  exact I.
Defined.

(** Once the upstream has answered, the timer is cleared and nothing bounds
    the reading of the body: if the body never arrives the caller is left
    waiting. *)
Remark stalled_body_suspends :
  let run := getSets noKey stalledBody {| url := "/api/sets"; params_id := "" |} initial in
  fst run = Suspended /\ timeout (snd run) = Cleared /\ aborted (snd run) = false.
Proof. cbv zeta. repeat split; reflexivity. Qed.

(** C7: on every path through the helper (success, non-success status,
    transport failure, timeout, body that fails to parse, and also a body
    that never arrives) the timer is not left armed: it has been cleared when
    the upstream settled before the deadline, and has fired otherwise. *)
Theorem timer_never_left_armed (env : ProcessEnv) (upstream : Upstream)
    (endpoint : string) (queryParams : option string) (st : CallState) :
  timeout (snd (pokemonApiRequest env upstream endpoint queryParams st))
  = (if settlesBefore 30000 (upstream (outboundCall env endpoint queryParams))
     then Cleared else Fired)
  /\ (forall deadline : N,
        timeout (snd (pokemonApiRequest env upstream endpoint queryParams st))
        <> Armed deadline).
Proof.
  pose proof (helper_timer env upstream endpoint queryParams st) as H.
  split; [exact H|]. intros deadline. rewrite H.
  destruct (settlesBefore _ _); discriminate.
Qed.

Lemma timer_never_left_armed_witness :
  timeout (snd (pokemonApiRequest noKey silent "/sets" None initial)) <> Armed 30000.
Proof.
  apply (proj2 (timer_never_left_armed noKey silent "/sets" None initial)).
Defined.

(** ** What is sent upstream *)

Section Outbound.

Variables (env : ProcessEnv) (upstream : Upstream).

Lemma handler_calls (r : Route) (req : Request) (st : CallState) :
  calls (snd (handler r env upstream req st)) = calls st ++ [callOf r env req].
Proof.
  destruct (handler_state env upstream r req st) as (-> & _).
  apply helper_calls.
Qed.

Lemma requestHeaders_unset :
  API_KEY env = "" -> requestHeaders env = baseHeaders.
Proof. intros H. unfold requestHeaders. now rewrite H. Qed.

Lemma requestHeaders_set :
  API_KEY env <> "" -> requestHeaders env = <["X-Api-Key" := API_KEY env]> baseHeaders.
Proof.
  intros H. unfold requestHeaders. now rewrite (truthy_nonempty _ H).
Qed.

Lemma baseHeaders_no_key : baseHeaders !! "X-Api-Key" = None.
Proof. reflexivity. Qed.

End Outbound.

(** C3: on the collection routes the part of [req.url] from its first
    question mark on is appended, unchanged, to [/sets] (resp. [/cards]):
    the upstream URL is base + path + query string, and nothing is appended
    when the inbound URL has no query string. *)
Theorem collection_query_forwarding (env : ProcessEnv) (upstream : Upstream)
    (path query pid : string) (st : CallState) :
  noQuestionMark path ->
  query = "" \/ (exists rest : string, query = String "?" rest) ->
  calls (snd (getSets env upstream {| url := path +:+ query; params_id := pid |} st))
  = calls st ++ [{| fetch_url := POKEMON_TCG_API +:+ "/sets" +:+ query;
                    fetch_headers := requestHeaders env |}]
  /\ calls (snd (getCards env upstream {| url := path +:+ query; params_id := pid |} st))
     = calls st ++ [{| fetch_url := POKEMON_TCG_API +:+ "/cards" +:+ query;
                       fetch_headers := requestHeaders env |}].
Proof.
  intros Hp Hq.
  assert (E : queryOf {| url := path +:+ query; params_id := pid |} = query).
  { destruct Hq as [-> | [rest ->]].
    - rewrite append_nil_r. now apply queryOf_without.
    - now apply queryOf_with. }
  split.
  - rewrite (handler_calls env upstream Sets). unfold callOf, outboundCall.
    cbn [endpointOf queryArgOf]. now rewrite E.
  - rewrite (handler_calls env upstream Cards). unfold callOf, outboundCall.
    cbn [endpointOf queryArgOf]. now rewrite E.
Qed.

Lemma collection_query_forwarding_witness :
  calls (snd (getCards noKey silent
                {| url := "/api/cards" +:+ "?q=name:pikachu"; params_id := "" |} initial))
  = calls initial ++ [{| fetch_url := POKEMON_TCG_API +:+ "/cards" +:+ "?q=name:pikachu";
                         fetch_headers := requestHeaders noKey |}].
Proof.
  apply (collection_query_forwarding noKey silent "/api/cards" "?q=name:pikachu" "" initial).
  - cbn. repeat split; discriminate.
  - right. exists "q=name:pikachu". reflexivity.
Defined.

(** C4: on the by-id routes the helper is called without a query string:
    the one upstream call goes to [/sets/{id}] (resp. [/cards/{id}]) with
    nothing after the id, and the handler's whole behaviour is the same
    whatever [req.url], hence whatever query string, the request carried. *)
Theorem by_id_drops_query (env : ProcessEnv) (upstream : Upstream)
    (u u' id : string) (st : CallState) :
  calls (snd (getSetById env upstream {| url := u; params_id := id |} st))
  = calls st ++ [{| fetch_url := POKEMON_TCG_API +:+ "/sets/" +:+ id;
                    fetch_headers := requestHeaders env |}]
  /\ calls (snd (getCardById env upstream {| url := u; params_id := id |} st))
     = calls st ++ [{| fetch_url := POKEMON_TCG_API +:+ "/cards/" +:+ id;
                       fetch_headers := requestHeaders env |}]
  /\ getSetById env upstream {| url := u; params_id := id |} st
     = getSetById env upstream {| url := u'; params_id := id |} st
  /\ getCardById env upstream {| url := u; params_id := id |} st
     = getCardById env upstream {| url := u'; params_id := id |} st.
Proof.
  split; [|split; [|split; reflexivity]].
  - rewrite (handler_calls env upstream SetById). unfold callOf, outboundCall.
    cbn [endpointOf queryArgOf default from_option params_id].
    now rewrite append_nil_r.
  - rewrite (handler_calls env upstream CardById). unfold callOf, outboundCall.
    cbn [endpointOf queryArgOf default from_option params_id].
    now rewrite append_nil_r.
Qed.

(** C10: on the by-id routes the upstream URL is the fixed prefix followed
    by the route parameter exactly as the router yields it: for every string
    [id], with no escaping and no validation, so that the id can be read
    back off the end of the URL. *)
Theorem by_id_path_is_concatenation (env : ProcessEnv) (upstream : Upstream)
    (req : Request) :
  map fetch_url (calls (snd (getSetById env upstream req initial)))
  = ["https://api.pokemontcg.io/v2/sets/" +:+ params_id req]
  /\ map fetch_url (calls (snd (getCardById env upstream req initial)))
     = ["https://api.pokemontcg.io/v2/cards/" +:+ params_id req]
  /\ drop_chars (String.length "https://api.pokemontcg.io/v2/sets/")
       ("https://api.pokemontcg.io/v2/sets/" +:+ params_id req) = params_id req
  /\ drop_chars (String.length "https://api.pokemontcg.io/v2/cards/")
       ("https://api.pokemontcg.io/v2/cards/" +:+ params_id req) = params_id req.
Proof.
  split; [|split; [|split; apply drop_chars_prefix]].
  - rewrite (handler_calls env upstream SetById). unfold callOf, outboundCall.
    cbn [endpointOf queryArgOf default from_option]. now rewrite append_nil_r.
  - rewrite (handler_calls env upstream CardById). unfold callOf, outboundCall.
    cbn [endpointOf queryArgOf default from_option]. now rewrite append_nil_r.
Qed.

(** ** The API key *)

(** C5, as the code has it: every run of the helper issues exactly one
    call, with or without a key; when [POKEMON_TCG_API_KEY] is unset the
    call has no [X-Api-Key] header, and when it is set to a non-empty value
    the call has that header with exactly that value. *)
Theorem api_key_header (env : ProcessEnv) (upstream : Upstream)
    (endpoint : string) (queryParams : option string) (st : CallState) :
  let c := outboundCall env endpoint queryParams in
  calls (snd (pokemonApiRequest env upstream endpoint queryParams st)) = calls st ++ [c]
  /\ fetch_headers c !! "Content-Type" = Some "application/json"
  /\ fetch_headers c !! "Accept" = Some "application/json"
  /\ (env_POKEMON_TCG_API_KEY env = None -> fetch_headers c !! "X-Api-Key" = None)
  /\ (forall key : string,
        env_POKEMON_TCG_API_KEY env = Some key -> key <> "" ->
        fetch_headers c !! "X-Api-Key" = Some key).
Proof.
  cbv zeta. split; [apply helper_calls|]. cbn [outboundCall fetch_headers].
  assert (Hct : requestHeaders env !! "Content-Type" = Some "application/json"
                /\ requestHeaders env !! "Accept" = Some "application/json").
  { unfold requestHeaders. destruct (truthy _); split; reflexivity. }
  destruct Hct as [Hc Ha]. repeat split; try assumption.
  - intros Hk. rewrite requestHeaders_unset; [reflexivity|].
    unfold API_KEY. now rewrite Hk.
  - intros key Hk Hne.
    assert (E : API_KEY env = key).
    { unfold API_KEY, or_else. rewrite Hk.
      destruct (String.eqb_spec key ""); [congruence | reflexivity]. }
    rewrite requestHeaders_set by congruence. rewrite E. reflexivity.
Qed.

Lemma api_key_header_witness :
  fetch_headers (outboundCall someKey "/cards" None) !! "X-Api-Key" = Some "0123-abcd".
Proof.
  apply (api_key_header someKey silent "/cards" None initial);
    [reflexivity | discriminate].
Defined.

(** C5 as stated fails when the variable is set to the empty string: the
    call then carries no [X-Api-Key] header at all, not one with the
    configured (empty) value. *)
Lemma empty_key_sends_no_header :
  ~ (forall key : string,
        env_POKEMON_TCG_API_KEY emptyKey = Some key ->
        map (fun c => fetch_headers c !! "X-Api-Key")
          (calls (snd (pokemonApiRequest emptyKey silent "/sets" None initial)))
        = [Some key]).
Proof.
  intros H. specialize (H "" eq_refl). vm_compute in H. discriminate H.
Qed.

(** C9: with [POKEMON_TCG_API_KEY] set to the empty string the stored key
    is the empty string, the helper behaves exactly as with the variable
    unset, and its call has no [X-Api-Key] header. *)
Theorem empty_key_is_unset (port : option string) (upstream : Upstream)
    (endpoint : string) (queryParams : option string) (st : CallState) :
  let empty := {| env_PORT := port; env_POKEMON_TCG_API_KEY := Some "" |} in
  let unset := {| env_PORT := port; env_POKEMON_TCG_API_KEY := None |} in
  API_KEY empty = ""
  /\ pokemonApiRequest empty upstream endpoint queryParams st
     = pokemonApiRequest unset upstream endpoint queryParams st
  /\ calls (snd (pokemonApiRequest empty upstream endpoint queryParams st))
     = calls st ++ [outboundCall empty endpoint queryParams]
  /\ fetch_headers (outboundCall empty endpoint queryParams) !! "X-Api-Key" = None
  /\ dom (fetch_headers (outboundCall empty endpoint queryParams))
     = ({[ "Content-Type"; "Accept" ]} : gset string).
Proof.
  cbv zeta. split; [reflexivity|]. split; [reflexivity|].
  split; [apply helper_calls|]. split; [reflexivity|].
  cbn [outboundCall fetch_headers]. unfold requestHeaders, baseHeaders.
  cbn [API_KEY or_else env_POKEMON_TCG_API_KEY truthy String.eqb negb].
  rewrite !dom_insert_L, dom_empty_L. set_solver.
Qed.

(** ** The health endpoint *)

(** C8, as the code has it: [GET /health] answers 200 with status
    "healthy" and a timestamp that reads back, as an ISO-8601 date-time, to
    the clock reading of the call; the timestamps of two calls are distinct
    exactly when their clock readings differ, in milliseconds. *)
Theorem health_endpoint (t1 t2 : Z) :
  - maxTime <= t1 <= maxTime -> - maxTime <= t2 <= maxTime ->
  statusCode (getHealth t1) = 200%N
  /\ property "status" (body (getHealth t1)) = Some (JString "healthy")
  /\ (exists ts : string,
        timestampOf (getHealth t1) = Some (JString ts) /\ parseISO ts = Some t1)
  /\ (timestampOf (getHealth t1) = timestampOf (getHealth t2) <-> t1 = t2).
Proof.
  intros H1 H2. split; [reflexivity|]. split; [reflexivity|]. split.
  - exists (toISOString t1). split; [reflexivity|]. now apply parseISO_toISOString.
  - split; [|now intros ->].
    intros E. cbn in E. injection E as E. now apply toISOString_inj.
Qed.

Lemma health_endpoint_witness :
  timestampOf (getHealth 1700000000000) = timestampOf (getHealth 1700000000001)
  <-> 1700000000000 = 1700000000001.
Proof.
  apply (health_endpoint 1700000000000 1700000000001); unfold maxTime; lia.
Defined.

(** C8 as stated fails for two successive calls that read the same
    millisecond off the clock: their timestamps are equal. *)
Lemma health_same_millisecond :
  ~ List.NoDup (map timestampOf (healthResponses [1700000000000; 1700000000000])).
Proof.
  intros H. unfold healthResponses in H. cbn [map] in H.
  apply List.NoDup_cons_iff in H as [Hin _]. apply Hin. left. reflexivity.
Qed.

(** * Further properties of the code *)

(** ** Complete description of a run *)

Section Runs.

Variables (env : ProcessEnv) (upstream : Upstream).

(** The helper's result and final state, case by case on what the
    upstream does. *)
Lemma helper_run (endpoint : string) (q : option string) (st : CallState) :
  pokemonApiRequest env upstream endpoint q st =
  let c := outboundCall env endpoint q in
  let st1 := add_call c (set_timeout (Armed (now st + 30000))
               (set_aborted false (add_line ("Fetching: " +:+ fetch_url c) st))) in
  let timedOut := (Throw (Error timeoutMessage),
                   set_aborted true (set_timeout Fired (set_now (now st + 30000) st1))) in
  match upstream c with
  | NeverSettles => timedOut
  | SettlesAfter d s =>
      if (d <? 30000)%N then
        let st2 := set_timeout Cleared (set_now (now st + d) st1) in
        match s with
        | Rejected e => (Throw (rethrown e), st2)
        | Fulfilled r =>
            if ok r then
              match json_ r with
              | SettlesAfter d' (Fulfilled v) => (Normal v, set_now (now st + d + d') st2)
              | SettlesAfter d' (Rejected e) => (Throw e, set_now (now st + d + d') st2)
              | NeverSettles => (Suspended, st2)
              end
            else
              match text r with
              | SettlesAfter d' (Fulfilled txt) =>
                  (Throw (Error (statusMessage r)),
                   add_line ("API error response: " +:+ txt)
                     (set_now (now st + d + d') st2))
              | SettlesAfter d' (Rejected e) =>
                  (Throw (rethrown e), set_now (now st + d + d') st2)
              | NeverSettles => (Suspended, st2)
              end
        end
      else timedOut
  end.
Proof.
  unfold outboundCall, rethrown, statusMessage.
  unfold pokemonApiRequest, mbind, Async_bind, bind, tryCatch, fetch, await,
    newAbortController, setTimeout, clearTimeout, console_log, console_error,
    throw, ret, settle, fire.
  cbn -[requestHeaders N.add N.ltb Number_toString].
  destruct (upstream _) as [d [r|e]|]; [| |reflexivity];
    rewrite deadline_cmp; destruct (N.ltb d 30000); try reflexivity.
  - cbn -[requestHeaders N.add N.ltb Number_toString].
    destruct (ok r); cbn -[requestHeaders N.add N.ltb Number_toString].
    + destruct (json_ r) as [d' [v|e]|]; reflexivity.
    + destruct (text r) as [d' [txt|e]|];
        cbn -[requestHeaders N.add N.ltb Number_toString]; try reflexivity.
      destruct (String.eqb (name e) "AbortError"); reflexivity.
  - cbn -[requestHeaders N.add N.ltb Number_toString].
    destruct (String.eqb (name e) "AbortError"); reflexivity.
Qed.

(** A handler's result and final state in terms of the helper's. *)
Lemma handler_run (r : Route) (req : Request) (st : CallState) :
  handler r env upstream req st =
  match pokemonApiRequest env upstream (endpointOf r req) (queryArgOf r req) st with
  | (Normal data, st') => (Normal (res_json data), st')
  | (Throw e, st') =>
      (Normal (res_error (errorLabel r) (message e)),
       add_line (errorLogPrefix r +:+ message e) st')
  | (Suspended, st') => (Suspended, st')
  end.
Proof.
  destruct r; unfold handler, getSets, getSetById, getCards, getCardById,
    endpointOf, queryArgOf, tryCatch, mbind, Async_bind, bind;
    destruct (pokemonApiRequest _ _ _ _ _) as [[data|e|] st']; reflexivity.
Qed.

End Runs.

(** ** What a handler can answer *)

Section Answers.

Variables (env : ProcessEnv) (upstream : Upstream).

(** The first component of [helper_run]. *)
Lemma helper_result (endpoint : string) (q : option string) (st : CallState) :
  fst (pokemonApiRequest env upstream endpoint q st) =
  match upstream (outboundCall env endpoint q) with
  | NeverSettles => Throw (Error timeoutMessage)
  | SettlesAfter d s =>
      if (d <? 30000)%N then
        match s with
        | Rejected e => Throw (rethrown e)
        | Fulfilled r =>
            if ok r then
              match json_ r with
              | SettlesAfter _ (Fulfilled v) => Normal v
              | SettlesAfter _ (Rejected e) => Throw e
              | NeverSettles => Suspended
              end
            else
              match text r with
              | SettlesAfter _ (Fulfilled _) => Throw (Error (statusMessage r))
              | SettlesAfter _ (Rejected e) => Throw (rethrown e)
              | NeverSettles => Suspended
              end
        end
      else Throw (Error timeoutMessage)
  end.
Proof.
  rewrite helper_run. cbv zeta.
  destruct (upstream _) as [d [r|e]|]; [| |reflexivity];
    destruct (N.ltb d 30000); try reflexivity.
  destruct (ok r).
  - destruct (json_ r) as [d' [v|e]|]; reflexivity.
  - destruct (text r) as [d' [txt|e]|]; reflexivity.
Qed.

Lemma res_json_not_error (v : json) (label msg : string) :
  res_json v <> res_error label msg.
Proof. unfold res_json, res_error. intros H. discriminate H. Qed.

End Answers.

(** X1: whatever the upstream does, a handled request makes exactly one
    upstream call, and that call goes to the [/sets] (resp. [/cards])
    resource under the fixed base URL. *)
Theorem one_call_to_the_base (r : Route) (env : ProcessEnv) (upstream : Upstream)
    (req : Request) (st : CallState) :
  exists c : FetchCall,
    calls (snd (handler r env upstream req st)) = calls st ++ [c]
    /\ String.prefix (POKEMON_TCG_API +:+ resourceOf r) (fetch_url c) = true.
Proof.
  exists (callOf r env req). split; [apply handler_calls|].
  unfold callOf, outboundCall. cbn [fetch_url].
  destruct r; cbn [endpointOf resourceOf].
  - rewrite <- append_assoc. apply prefix_append.
  - change ("/sets/" +:+ params_id req) with ("/sets" +:+ "/" +:+ params_id req).
    rewrite (append_assoc "/sets"), <- (append_assoc POKEMON_TCG_API). apply prefix_append.
  - rewrite <- append_assoc. apply prefix_append.
  - change ("/cards/" +:+ params_id req) with ("/cards" +:+ "/" +:+ params_id req).
    rewrite (append_assoc "/cards"), <- (append_assoc POKEMON_TCG_API). apply prefix_append.
Qed.

(** X2: the caller receives 200 with a payload exactly when the upstream
    answered before the deadline with a 2xx status and a body that parsed
    to that payload; the payload is passed on as it is, and the status sent
    is 200 whichever 2xx the upstream sent. *)
Theorem success_passthrough (r : Route) (env : ProcessEnv) (upstream : Upstream)
    (req : Request) (st : CallState) (v : json) :
  fst (handler r env upstream req st) = Normal {| statusCode := 200; body := v |}
  <-> exists (d d' : N) (resp : Response),
        upstream (callOf r env req) = SettlesAfter d (Fulfilled resp)
        /\ (d < 30000)%N /\ ok resp = true
        /\ json_ resp = SettlesAfter d' (Fulfilled v).
Proof.
  rewrite handler_result, helper_result. fold (callOf r env req).
  destruct (upstream (callOf r env req)) as [d [resp|e]|].
  - destruct (N.ltb_spec d 30000) as [Hd|Hd].
    + destruct (ok resp) eqn:Hok.
      * destruct (json_ resp) as [d' [w|e]|] eqn:Hj.
        -- split.
           ++ intros H. injection H as <-. exists d, d', resp. auto.
           ++ intros (d0 & d0' & resp0 & H & _ & _ & Hj0).
              injection H as <- <-. rewrite Hj in Hj0. injection Hj0 as _ <-. reflexivity.
        -- split; [discriminate|].
           intros (d0 & d0' & resp0 & H & _ & _ & Hj0).
           injection H as <- <-. rewrite Hj in Hj0. discriminate.
        -- split; [discriminate|].
           intros (d0 & d0' & resp0 & H & _ & _ & Hj0).
           injection H as <- <-. rewrite Hj in Hj0. discriminate.
      * split.
        -- destruct (text resp) as [d' [txt|e]|]; discriminate.
        -- intros (d0 & d0' & resp0 & H & _ & Hok0 & _).
           injection H as <- <-. congruence.
    + split; [discriminate|].
      intros (d0 & d0' & resp0 & H & Hd0 & _). injection H as <- <-. lia.
  - split.
    + destruct (N.ltb d 30000); discriminate.
    + intros (d0 & d0' & resp0 & H & _). discriminate.
  - split; [discriminate|]. intros (d0 & d0' & resp0 & H & _). discriminate.
Qed.

Lemma success_passthrough_witness :
  fst (getCards someKey answers {| url := "/api/cards?q=name:pikachu"; params_id := "" |} initial)
  = Normal {| statusCode := 200; body := onePayload |}.
Proof.
  apply (proj2 (success_passthrough Cards someKey answers
                  {| url := "/api/cards?q=name:pikachu"; params_id := "" |} initial
                  onePayload)).
  exists 80%N, 2%N,
    {| status := 200; statusText := "OK";
       text := SettlesAfter 2 (Fulfilled "");
       json_ := SettlesAfter 2 (Fulfilled onePayload) |}.
  repeat split; reflexivity.
Defined.

(** X3: a handler never lets an error escape and never sends any status but
    200 and 500: it answers 200 with a payload, or 500 with the label of
    its route and a message, or it is left waiting. *)
Theorem answers_200_or_500 (r : Route) (env : ProcessEnv) (upstream : Upstream)
    (req : Request) (st : CallState) :
  (exists v : json,
      fst (handler r env upstream req st) = Normal {| statusCode := 200; body := v |})
  \/ (exists msg : string,
        fst (handler r env upstream req st)
        = Normal {| statusCode := 500;
                    body := JObject [("error", JString (errorLabel r));
                                     ("message", JString msg)] |})
  \/ fst (handler r env upstream req st) = Suspended.
Proof.
  rewrite handler_result.
  destruct (fst (pokemonApiRequest _ _ _ _ _)) as [v|e|].
  - left. exists v. reflexivity.
  - right. left. exists (message e). reflexivity.
  - right. right. reflexivity.
Qed.

(** X4: the only way a request is left without an answer is an upstream
    that delivers its status line before the deadline and then never
    delivers the body the code goes on to read (the JSON body of a 2xx
    answer, the text of any other). *)
Theorem unanswered_iff_body_stalls (r : Route) (env : ProcessEnv) (upstream : Upstream)
    (req : Request) (st : CallState) :
  fst (handler r env upstream req st) = Suspended
  <-> exists (d : N) (resp : Response),
        upstream (callOf r env req) = SettlesAfter d (Fulfilled resp)
        /\ (d < 30000)%N
        /\ ((ok resp = true /\ json_ resp = NeverSettles)
            \/ (ok resp = false /\ text resp = NeverSettles)).
Proof.
  rewrite handler_result, helper_result. fold (callOf r env req).
  destruct (upstream (callOf r env req)) as [d [resp|e]|].
  - destruct (N.ltb_spec d 30000) as [Hd|Hd].
    + destruct (ok resp) eqn:Hok.
      * destruct (json_ resp) as [d' [w|e]|] eqn:Hj.
        -- split; [discriminate|].
           intros (d0 & resp0 & H & _ & [[_ Hj0]|[Hok0 _]]);
             injection H as <- <-; congruence.
        -- split; [discriminate|].
           intros (d0 & resp0 & H & _ & [[_ Hj0]|[Hok0 _]]);
             injection H as <- <-; congruence.
        -- split; [|reflexivity]. intros _. exists d, resp. auto.
      * destruct (text resp) as [d' [txt|e]|] eqn:Ht.
        -- split; [discriminate|].
           intros (d0 & resp0 & H & _ & [[Hok0 _]|[_ Ht0]]);
             injection H as <- <-; congruence.
        -- split; [discriminate|].
           intros (d0 & resp0 & H & _ & [[Hok0 _]|[_ Ht0]]);
             injection H as <- <-; congruence.
        -- split; [|reflexivity]. intros _. exists d, resp. auto.
    + split; [discriminate|].
      intros (d0 & resp0 & H & Hd0 & _). injection H as <- <-. lia.
  - split.
    + destruct (N.ltb d 30000); discriminate.
    + intros (d0 & resp0 & H & _). discriminate.
  - split; [discriminate|]. intros (d0 & resp0 & H & _). discriminate.
Qed.

Lemma unanswered_iff_body_stalls_witness :
  fst (getSets noKey stalledBody {| url := "/api/sets"; params_id := "" |} initial) = Suspended.
Proof.
  apply (proj2 (unanswered_iff_body_stalls Sets noKey stalledBody
                  {| url := "/api/sets"; params_id := "" |} initial)).
  exists 50%N,
    {| status := 200; statusText := "OK"; text := NeverSettles; json_ := NeverSettles |}.
  split; [reflexivity|]. split; [reflexivity|]. left. split; reflexivity.
Defined.

(** ** State a request leaves behind, and state it starts from *)

Section States.

Variables (env : ProcessEnv) (upstream : Upstream).

(** The second component of [helper_run], field by field. *)
Lemma helper_final_state (endpoint : string) (q : option string) (st : CallState) :
  let st' := snd (pokemonApiRequest env upstream endpoint q st) in
  let settled := settlesBefore 30000 (upstream (outboundCall env endpoint q)) in
  aborted st' = negb settled
  /\ timeout st' = (if settled then Cleared else Fired)
  /\ (settled = false -> now st' = (now st + 30000)%N).
Proof.
  cbv zeta. rewrite helper_run. cbv zeta. unfold settlesBefore.
  destruct (upstream _) as [d [r|e]|]; [| |cbn; auto];
    destruct (N.ltb d 30000); cbn [negb]; try (cbn; auto; fail).
  - destruct (ok r).
    + destruct (json_ r) as [d' [v|e]|]; cbn; repeat split; discriminate.
    + destruct (text r) as [d' [txt|e]|]; cbn; repeat split; discriminate.
  - cbn. repeat split; discriminate.
Qed.

End States.

(** X5: the controller is aborted exactly when the timer has fired, that
    is, exactly when the upstream had not settled before the deadline; a
    call that settled in time is never aborted, also not later while its
    body is read. *)
Theorem aborted_iff_timer_fired (r : Route) (env : ProcessEnv) (upstream : Upstream)
    (req : Request) (st : CallState) :
  let st' := snd (handler r env upstream req st) in
  (aborted st' = true <-> timeout st' = Fired)
  /\ (aborted st' = false <-> timeout st' = Cleared)
  /\ (aborted st' = true <-> settlesBefore 30000 (upstream (callOf r env req)) = false).
Proof.
  cbv zeta.
  destruct (handler_state env upstream r req st) as (_ & -> & _ & ->).
  destruct (helper_final_state env upstream (endpointOf r req) (queryArgOf r req) st)
    as (-> & -> & _).
  fold (callOf r env req).
  destruct (settlesBefore 30000 (upstream (callOf r env req))); cbn;
    repeat split; intros; try reflexivity; discriminate.
Qed.

Lemma aborted_iff_timer_fired_witness :
  aborted (snd (getCards noKey silent {| url := "/api/cards"; params_id := "" |} initial)) = true.
Proof.
  apply (proj2 (proj2 (proj2 (aborted_iff_timer_fired Cards noKey silent
                                {| url := "/api/cards"; params_id := "" |} initial)))).
  reflexivity.
Defined.

(** X6: requests are independent of one another: what a handler answers
    does not depend on the state it starts from (an earlier request's
    timer, abort flag, clock, calls or log lines), only on the
    environment, the request and the upstream's behaviour. *)
Theorem answer_independent_of_history (r : Route) (env : ProcessEnv) (upstream : Upstream)
    (req : Request) (st st' : CallState) :
  fst (handler r env upstream req st) = fst (handler r env upstream req st')
  /\ fst (handler r env upstream req (snd (handler r env upstream req st)))
     = fst (handler r env upstream req initial).
Proof.
  assert (H : forall s1 s2 : CallState,
             fst (handler r env upstream req s1) = fst (handler r env upstream req s2)).
  { intros s1 s2. now rewrite !handler_result, !helper_result. }
  split; apply H.
Qed.

(** X7: the deadline covers only the wait for the upstream's status line.
    When that arrives before 30000 ms with a 2xx status, the timer is
    cleared and the body is waited for without limit: however long the body
    takes, the caller receives 200, at the moment the body has arrived, and
    the call is not aborted. *)
Theorem slow_body_is_not_timed_out (r : Route) (env : ProcessEnv) (upstream : Upstream)
    (req : Request) (st : CallState) (d d' : N) (resp : Response) (v : json) :
  upstream (callOf r env req) = SettlesAfter d (Fulfilled resp) ->
  (d < 30000)%N -> ok resp = true ->
  json_ resp = SettlesAfter d' (Fulfilled v) ->
  let run := handler r env upstream req st in
  fst run = Normal {| statusCode := 200; body := v |}
  /\ now (snd run) = (now st + d + d')%N
  /\ timeout (snd run) = Cleared
  /\ aborted (snd run) = false.
Proof.
  intros H Hd Hok Hj. cbv zeta. unfold callOf in H.
  rewrite handler_run, helper_run. cbv zeta. rewrite H.
  destruct (N.ltb_spec d 30000); [|lia]. rewrite Hok, Hj. cbn. auto.
Qed.

Lemma slow_body_is_not_timed_out_witness :
  let slow : Upstream := fun _ =>
    SettlesAfter 29999
      (Fulfilled {| status := 200; statusText := "OK";
                    text := NeverSettles;
                    json_ := SettlesAfter 600000 (Fulfilled onePayload) |}) in
  let run := getSets noKey slow {| url := "/api/sets"; params_id := "" |} initial in
  fst run = Normal {| statusCode := 200; body := onePayload |}
  /\ now (snd run) = 629999%N
  /\ timeout (snd run) = Cleared
  /\ aborted (snd run) = false.
Proof.
  cbv zeta.
  apply (slow_body_is_not_timed_out Sets noKey _ {| url := "/api/sets"; params_id := "" |}
           initial 29999 600000
           {| status := 200; statusText := "OK"; text := NeverSettles;
              json_ := SettlesAfter 600000 (Fulfilled onePayload) |} onePayload);
    reflexivity.
Defined.

(** X8: the [catch] block of the helper recognises a timeout by the name of
    the error alone.  A transport failure that arrives before the deadline
    under the name [AbortError] is reported with the timeout message although
    the timer was cleared and nothing was aborted; any other transport
    failure is reported with its own message.  An error from parsing a 2xx
    body does not pass through that [catch] block (the promise is returned,
    not awaited): it is reported with its own message whatever its name. *)
Theorem timeout_recognised_by_name (r : Route) (env : ProcessEnv) (upstream : Upstream)
    (req : Request) (st : CallState) (d : N) :
  (d < 30000)%N ->
  (forall e : JsError,
      upstream (callOf r env req) = SettlesAfter d (Rejected e) ->
      let run := handler r env upstream req st in
      fst run = Normal (res_error (errorLabel r)
                          (if String.eqb (name e) "AbortError"
                           then timeoutMessage else message e))
      /\ timeout (snd run) = Cleared /\ aborted (snd run) = false)
  /\ (forall (resp : Response) (d' : N) (e : JsError),
        upstream (callOf r env req) = SettlesAfter d (Fulfilled resp) ->
        ok resp = true -> json_ resp = SettlesAfter d' (Rejected e) ->
        fst (handler r env upstream req st)
        = Normal (res_error (errorLabel r) (message e))).
Proof.
  intros Hd. split.
  - intros e H. cbv zeta. unfold callOf in H.
    rewrite handler_run, helper_run. cbv zeta. rewrite H.
    destruct (N.ltb_spec d 30000); [|lia]. unfold rethrown.
    destruct (String.eqb (name e) "AbortError"); cbn; auto.
  - intros resp d' e H Hok Hj. unfold callOf in H.
    rewrite handler_result, helper_result, H.
    destruct (N.ltb_spec d 30000); [|lia]. now rewrite Hok, Hj.
Qed.

Lemma timeout_recognised_by_name_witness :
  fst (getSets noKey failsAbortNamed {| url := "/api/sets"; params_id := "" |} initial)
  = Normal (res_error "Failed to fetch sets" timeoutMessage)
  /\ fst (getSets noKey parseAbortNamed {| url := "/api/sets"; params_id := "" |} initial)
     = Normal (res_error "Failed to fetch sets" "socket closed").
Proof.
  split.
  - apply (proj1 (timeout_recognised_by_name Sets noKey failsAbortNamed
                    {| url := "/api/sets"; params_id := "" |} initial 10 eq_refl)
             abortNamed eq_refl).
  - apply (proj2 (timeout_recognised_by_name Sets noKey parseAbortNamed
                    {| url := "/api/sets"; params_id := "" |} initial 80 eq_refl)
             {| status := 200; statusText := "OK";
                text := SettlesAfter 2 (Fulfilled "");
                json_ := SettlesAfter 2 (Rejected abortNamed) |} 2%N abortNamed);
      reflexivity.
Defined.

(** ** What is written to the console *)

Section Console.

Variables (env : ProcessEnv) (upstream : Upstream).

(** The console after a run of the helper: the line announcing the URL,
    then, for a non-success answer whose body was read, the line with that
    body. *)
Lemma helper_console (endpoint : string) (q : option string) (st : CallState) :
  console (snd (pokemonApiRequest env upstream endpoint q st))
  = console st
    ++ ["Fetching: " +:+ fetch_url (outboundCall env endpoint q)]
    ++ match upstream (outboundCall env endpoint q) with
       | SettlesAfter d (Fulfilled r) =>
           if (d <? 30000)%N && negb (ok r) then
             match text r with
             | SettlesAfter _ (Fulfilled txt) => ["API error response: " +:+ txt]
             | _ => []
             end
           else []
       | _ => []
       end.
Proof.
  rewrite helper_run. cbv zeta.
  destruct (upstream _) as [d [r|e]|]; [| |reflexivity];
    destruct (N.ltb d 30000); cbn [andb]; try reflexivity.
  destruct (ok r); cbn [negb].
  - destruct (json_ r) as [d' [v|e]|]; reflexivity.
  - destruct (text r) as [d' [txt|e]|]; cbn; rewrite <- ?app_assoc; reflexivity.
Qed.

End Console.

(** X9: every failure reported to the caller is also written to the
    console with the same detail: when a handler answers 500 with message
    [msg], the last line it wrote is its route's prefix followed by [msg].
    When it answers 200 it wrote a single line, the one announcing the URL
    that was fetched. *)
Theorem failures_are_logged (r : Route) (env : ProcessEnv) (upstream : Upstream)
    (req : Request) (st : CallState) :
  (forall msg : string,
      fst (handler r env upstream req st) = Normal (res_error (errorLabel r) msg) ->
      last (console (snd (handler r env upstream req st)))
      = Some (errorLogPrefix r +:+ msg))
  /\ (forall v : json,
        fst (handler r env upstream req st) = Normal (res_json v) ->
        console (snd (handler r env upstream req st))
        = console st ++ ["Fetching: " +:+ fetch_url (callOf r env req)]).
Proof.
  pose proof (helper_console env upstream (endpointOf r req) (queryArgOf r req) st) as Hc.
  pose proof (helper_result env upstream (endpointOf r req) (queryArgOf r req) st) as Hr.
  rewrite handler_run. fold (callOf r env req) in *.
  destruct (pokemonApiRequest env upstream (endpointOf r req) (queryArgOf r req) st)
    as [[v0|e|] st0]; cbn [fst snd] in *; split.
  - intros msg H. injection H as H. discriminate H.
  - intros v _. rewrite Hc.
    destruct (upstream (callOf r env req)) as [d [resp|e]|]; try discriminate Hr.
    + destruct (N.ltb d 30000); [|discriminate Hr]. cbn [andb].
      destruct (ok resp); [reflexivity|].
      destruct (text resp) as [d' [txt|e]|]; discriminate Hr.
    + destruct (N.ltb d 30000); discriminate Hr.
  - intros msg H. injection H as <-. cbn [console add_line]. apply last_snoc.
  - intros v H. injection H as H. discriminate H.
  - intros msg H. discriminate H.
  - intros v H. discriminate H.
Qed.

Lemma failures_are_logged_witness :
  last (console (snd (getCardById noKey notFound
                        {| url := "/api/cards/xy1-1"; params_id := "xy1-1" |} initial)))
  = Some "Error fetching card: Pokemon TCG API error: 404 Not Found".
Proof.
  apply (proj1 (failures_are_logged CardById noKey notFound
                  {| url := "/api/cards/xy1-1"; params_id := "xy1-1" |} initial)
           "Pokemon TCG API error: 404 Not Found").
  reflexivity.
Defined.

(** X10: the body of a non-success upstream answer is written to the
    console and goes no further: the caller's 500 response is made of the
    route's label, the status code and the reason phrase only. *)
Theorem error_body_logged_not_forwarded (r : Route) (env : ProcessEnv) (upstream : Upstream)
    (req : Request) (st : CallState) (d d' : N) (resp : Response) (txt : string) :
  upstream (callOf r env req) = SettlesAfter d (Fulfilled resp) ->
  (d < 30000)%N -> ok resp = false ->
  text resp = SettlesAfter d' (Fulfilled txt) ->
  let run := handler r env upstream req st in
  fst run
  = Normal (res_error (errorLabel r)
              ("Pokemon TCG API error: " +:+ Number_toString (status resp)
                 +:+ " " +:+ statusText resp))
  /\ console (snd run)
     = console st ++ [ "Fetching: " +:+ fetch_url (callOf r env req);
                       "API error response: " +:+ txt;
                       errorLogPrefix r +:+ "Pokemon TCG API error: "
                         +:+ Number_toString (status resp) +:+ " " +:+ statusText resp ].
Proof.
  intros H Hd Hok Ht. cbv zeta. unfold callOf in *.
  rewrite handler_run, helper_run. cbv zeta. rewrite H.
  destruct (N.ltb_spec d 30000); [|lia]. rewrite Hok, Ht. cbn.
  split; [reflexivity|]. now rewrite <- !app_assoc.
Qed.

Lemma error_body_logged_not_forwarded_witness :
  console (snd (getSets noKey notFound {| url := "/api/sets"; params_id := "" |} initial))
  = [ "Fetching: https://api.pokemontcg.io/v2/sets";
      "API error response: {}";
      "Error fetching sets: Pokemon TCG API error: 404 Not Found" ].
Proof.
  apply (proj2 (error_body_logged_not_forwarded Sets noKey notFound
                  {| url := "/api/sets"; params_id := "" |} initial 120 3
                  {| status := 404; statusText := "Not Found";
                     text := SettlesAfter 3 (Fulfilled "{}");
                     json_ := SettlesAfter 3 (Fulfilled (JObject [])) |} "{}"
                  eq_refl eq_refl eq_refl eq_refl)).
Defined.

(** ** Query strings *)

Section QueryStrings.

Lemma noQuestionMark_append (a b : string) :
  noQuestionMark (a +:+ b) <-> noQuestionMark a /\ noQuestionMark b.
Proof.
  induction a as [|c a IH].
  - rewrite append_nil_l. cbn. tauto.
  - rewrite append_cons. cbn [noQuestionMark]. tauto.
Qed.

Lemma base_has_no_query :
  noQuestionMark (POKEMON_TCG_API +:+ "/sets/")
  /\ noQuestionMark (POKEMON_TCG_API +:+ "/cards/")
  /\ noQuestionMark (POKEMON_TCG_API +:+ "/sets")
  /\ noQuestionMark (POKEMON_TCG_API +:+ "/cards").
Proof. vm_compute. repeat split; discriminate. Qed.

(** The query string taken off any URL, without assumption on the URL. *)
Lemma queryOf_spec (req : Request) :
  exists path : string,
    url req = path +:+ queryOf req /\ noQuestionMark path
    /\ (queryOf req = "" \/ exists rest : string, queryOf req = String "?" rest).
Proof.
  destruct req as [u pid]. cbn [url].
  destruct (url_decomposition u) as (path & query & -> & Hp & [-> | [rest ->]]).
  - exists path. rewrite append_nil_r, (queryOf_without _ _ Hp), append_nil_r. auto.
  - exists path. rewrite (queryOf_with _ _ _ Hp). eauto.
Qed.

Lemma queryOf_empty_iff (req : Request) :
  queryOf req = "" <-> noQuestionMark (url req).
Proof.
  destruct (queryOf_spec req) as (path & E & Hp & Hq).
  assert (Hu : noQuestionMark (url req) <-> noQuestionMark (path +:+ queryOf req))
    by (rewrite <- E; tauto).
  rewrite Hu, noQuestionMark_append. split.
  - intros ->. cbn. tauto.
  - intros [_ H]. destruct Hq as [-> | [rest Hr]]; [reflexivity|].
    rewrite Hr in H. cbn in H. tauto.
Qed.

End QueryStrings.

(** X11: the query string a collection route forwards is, for every
    inbound URL whatsoever, the part of the URL from its first question
    mark on (later question marks included): the URL is some text free of
    question marks followed by the forwarded query string, which is empty or
    begins with a question mark. *)
Theorem forwarded_query_is_url_suffix (env : ProcessEnv) (upstream : Upstream)
    (req : Request) :
  exists path query : string,
    url req = path +:+ query
    /\ noQuestionMark path
    /\ (query = "" \/ exists rest : string, query = String "?" rest)
    /\ map fetch_url (calls (snd (getSets env upstream req initial)))
       = [POKEMON_TCG_API +:+ "/sets" +:+ query]
    /\ map fetch_url (calls (snd (getCards env upstream req initial)))
       = [POKEMON_TCG_API +:+ "/cards" +:+ query].
Proof.
  destruct (queryOf_spec req) as (path & E & Hp & Hq).
  exists path, (queryOf req). repeat split; try assumption.
  - now rewrite (handler_calls env upstream Sets).
  - now rewrite (handler_calls env upstream Cards).
Qed.

(** X12: the upstream URL of a collection route has a query string exactly
    when the inbound URL has one, and the upstream URL of a by-id route has
    one exactly when the id itself contains a question mark (the id is not
    escaped, so a question mark in it starts a query string upstream). *)
Theorem upstream_query_presence (env : ProcessEnv) (upstream : Upstream) (req : Request) :
  Forall (fun c => noQuestionMark (fetch_url c) <-> noQuestionMark (url req))
    (calls (snd (getSets env upstream req initial)))
  /\ Forall (fun c => noQuestionMark (fetch_url c) <-> noQuestionMark (url req))
       (calls (snd (getCards env upstream req initial)))
  /\ Forall (fun c => noQuestionMark (fetch_url c) <-> noQuestionMark (params_id req))
       (calls (snd (getSetById env upstream req initial)))
  /\ Forall (fun c => noQuestionMark (fetch_url c) <-> noQuestionMark (params_id req))
       (calls (snd (getCardById env upstream req initial))).
Proof.
  destruct base_has_no_query as (Hs' & Hc' & Hs & Hc).
  rewrite (handler_calls env upstream Sets), (handler_calls env upstream Cards),
    (handler_calls env upstream SetById), (handler_calls env upstream CardById).
  unfold callOf, outboundCall. cbn [initial calls app endpointOf queryArgOf].
  repeat split; (constructor; [|constructor]); cbn [fetch_url].
  - cbn [default from_option]. change (id (queryOf req)) with (queryOf req).
    rewrite <- append_assoc, noQuestionMark_append, <- queryOf_empty_iff.
    split; [intros [_ H]|intros ->; split; [exact Hs|exact I]].
    destruct (queryOf_spec req) as (_ & _ & _ & [E | [rest E]]); [exact E|].
    rewrite E in H. cbn in H. tauto.
  - cbn [default from_option]. change (id (queryOf req)) with (queryOf req).
    rewrite <- append_assoc, noQuestionMark_append, <- queryOf_empty_iff.
    split; [intros [_ H]|intros ->; split; [exact Hc|exact I]].
    destruct (queryOf_spec req) as (_ & _ & _ & [E | [rest E]]); [exact E|].
    rewrite E in H. cbn in H. tauto.
  - cbn [default from_option]. rewrite append_nil_r.
    change (POKEMON_TCG_API +:+ "/sets/" +:+ params_id req)
      with ((POKEMON_TCG_API +:+ "/sets/") +:+ params_id req).
    rewrite noQuestionMark_append. tauto.
  - cbn [default from_option]. rewrite append_nil_r.
    change (POKEMON_TCG_API +:+ "/cards/" +:+ params_id req)
      with ((POKEMON_TCG_API +:+ "/cards/") +:+ params_id req).
    rewrite noQuestionMark_append. tauto.
Qed.

Lemma upstream_query_presence_witness :
  ~ noQuestionMark "base1?select=id"
  /\ map fetch_url
       (calls (snd (getSetById noKey silent
                      {| url := "/api/sets/base1%3Fselect=id"; params_id := "base1?select=id" |}
                      initial)))
     = ["https://api.pokemontcg.io/v2/sets/base1?select=id"]
  /\ Forall (fun c => ~ noQuestionMark (fetch_url c))
       (calls (snd (getSetById noKey silent
                      {| url := "/api/sets/base1%3Fselect=id"; params_id := "base1?select=id" |}
                      initial))).
Proof.
  assert (Hid : ~ noQuestionMark "base1?select=id") by (cbn; tauto).
  split; [exact Hid|]. split; [reflexivity|].
  eapply Forall_impl;
    [exact (proj1 (proj2 (proj2 (upstream_query_presence noKey silent
               {| url := "/api/sets/base1%3Fselect=id"; params_id := "base1?select=id" |}))))|].
  intros c Hc H. apply Hid. apply Hc. exact H.
Defined.

(** X13: a proxy in front of the proxy sees the same query string: taking
    the query string off the upstream URL of a collection route, with the
    very expression the routes use, gives the query string that was taken
    off the inbound URL. *)
Theorem query_survives_forwarding (env : ProcessEnv) (upstream : Upstream) (req : Request) :
  map (fun c => queryOf {| url := fetch_url c; params_id := "" |})
    (calls (snd (getSets env upstream req initial))) = [queryOf req]
  /\ map (fun c => queryOf {| url := fetch_url c; params_id := "" |})
       (calls (snd (getCards env upstream req initial))) = [queryOf req].
Proof.
  destruct base_has_no_query as (_ & _ & Hs & Hc).
  rewrite (handler_calls env upstream Sets), (handler_calls env upstream Cards).
  unfold callOf, outboundCall.
  cbn [initial calls app endpointOf queryArgOf map fetch_url default from_option].
  change (id (queryOf req)) with (queryOf req).
  rewrite <- !append_assoc.
  destruct (queryOf_spec req) as (_ & _ & _ & [-> | [rest ->]]).
  - rewrite (append_nil_r (POKEMON_TCG_API +:+ "/sets")),
      (append_nil_r (POKEMON_TCG_API +:+ "/cards")).
    split; f_equal; now apply queryOf_without.
  - split; f_equal; now apply queryOf_with.
Qed.

(** ** Where the API key goes *)

Section KeyFlow.

Lemma handler_console (env : ProcessEnv) (upstream : Upstream) (r : Route)
    (req : Request) (st : CallState) :
  console (snd (handler r env upstream req st))
  = console (snd (pokemonApiRequest env upstream (endpointOf r req) (queryArgOf r req) st))
    ++ match fst (pokemonApiRequest env upstream (endpointOf r req) (queryArgOf r req) st) with
       | Throw e => [errorLogPrefix r +:+ message e]
       | _ => []
       end.
Proof.
  rewrite handler_run.
  destruct (pokemonApiRequest _ _ _ _ _) as [[v|e|] st']; cbn; now rewrite ?app_nil_r.
Qed.

Lemma callOf_url (r : Route) (env env' : ProcessEnv) (req : Request) :
  fetch_url (callOf r env req) = fetch_url (callOf r env' req).
Proof. reflexivity. Qed.

End KeyFlow.

(** X14: the API key reaches the upstream in the [X-Api-Key] header and
    nowhere else.  Two servers configured with different keys (or one with
    a key and one without), facing upstreams that answer their calls alike,
    send the caller the same response, write the same console lines and
    call the same URL. *)
Theorem api_key_only_in_header (r : Route) (env env' : ProcessEnv)
    (upstream upstream' : Upstream) (req : Request) (st : CallState) :
  upstream (callOf r env req) = upstream' (callOf r env' req) ->
  fst (handler r env upstream req st) = fst (handler r env' upstream' req st)
  /\ console (snd (handler r env upstream req st))
     = console (snd (handler r env' upstream' req st))
  /\ map fetch_url (calls (snd (handler r env upstream req st)))
     = map fetch_url (calls (snd (handler r env' upstream' req st))).
Proof.
  intros H. split; [|split].
  - rewrite !handler_result, !helper_result. fold (callOf r env req) (callOf r env' req).
    now rewrite H.
  - rewrite !handler_console, !helper_console, !helper_result.
    fold (callOf r env req) (callOf r env' req).
    now rewrite H, (callOf_url r env env').
  - rewrite !handler_calls, !map_app. cbn [map]. now rewrite (callOf_url r env env').
Qed.

Lemma api_key_only_in_header_witness :
  fst (getSets someKey notFound {| url := "/api/sets"; params_id := "" |} initial)
  = fst (getSets noKey notFound {| url := "/api/sets"; params_id := "" |} initial)
  /\ console (snd (getSets someKey notFound {| url := "/api/sets"; params_id := "" |} initial))
     = console (snd (getSets noKey notFound {| url := "/api/sets"; params_id := "" |} initial)).
Proof.
  destruct (api_key_only_in_header Sets someKey noKey notFound notFound
              {| url := "/api/sets"; params_id := "" |} initial eq_refl) as (H1 & H2 & _).
  split; [exact H1 | exact H2].
Defined.

(** X15: the start-up banner agrees with what requests do: it says "Yes"
    exactly when outbound calls carry an [X-Api-Key] header and "No (using
    default rate limits)" exactly when they carry none; the key itself is
    not printed.  With [PORT] unset or empty the banner names port 3001. *)
Theorem startup_banner_matches_requests (env : ProcessEnv)
    (endpoint : string) (queryParams : option string) :
  let headers := fetch_headers (outboundCall env endpoint queryParams) in
  (startupLog env !! 1%nat = Some "API Key configured: Yes"
   <-> is_Some (headers !! "X-Api-Key"))
  /\ (startupLog env !! 1%nat = Some "API Key configured: No (using default rate limits)"
      <-> headers !! "X-Api-Key" = None)
  /\ (startupLog env !! 1%nat = Some "API Key configured: Yes"
      \/ startupLog env !! 1%nat = Some "API Key configured: No (using default rate limits)")
  /\ (truthy (env_PORT env) = false ->
      startupLog env !! 0%nat = Some "Summit Cards Backend v1.1.0 running on port 3001").
Proof.
  cbv zeta. cbn [outboundCall fetch_headers]. unfold startupLog, requestHeaders.
  split; [|split; [|split]]; [| |destruct (truthy (Some (API_KEY env))); [left|right]; reflexivity|].
  - destruct (truthy (Some (API_KEY env))); cbn [lookup list_lookup].
    + split; [intros _|reflexivity]. rewrite lookup_insert_eq. eauto.
    + split; [discriminate|]. intros [k Hk]. discriminate Hk.
  - destruct (truthy (Some (API_KEY env))); cbn [lookup list_lookup].
    + split; [discriminate|]. rewrite lookup_insert_eq. discriminate.
    + split; reflexivity.
  - intros Hp. unfold portString, PORT. rewrite Hp. reflexivity.
Qed.

Lemma startup_banner_matches_requests_witness :
  startupLog noKey
  = [ "Summit Cards Backend v1.1.0 running on port 3001";
      "API Key configured: No (using default rate limits)" ]
  /\ startupLog noKey !! 0%nat = Some "Summit Cards Backend v1.1.0 running on port 3001".
Proof.
  split; [reflexivity|].
  apply (proj2 (proj2 (proj2 (startup_banner_matches_requests noKey "/sets" None)))).
  reflexivity.
Defined.

(** ** More on the origin gate *)

(** X16: the origin callback writes to the console exactly when it denies:
    an allowed request leaves no line, a denied one leaves the single line
    "Blocked origin: " followed by the origin, and is refused with the
    error "Not allowed by CORS"; a denied origin is always a non-empty
    header value that is not on the list. *)
Theorem denial_is_logged (allowed : list string) (origin : option string) :
  (isAllowed (corsOrigin allowed origin) = true <-> snd (corsOrigin allowed origin) = [])
  /\ (isAllowed (corsOrigin allowed origin) = false ->
      exists o : string,
        origin = Some o /\ o <> "" /\ ~ In o allowed
        /\ corsOrigin allowed origin
           = (Denied {| name := "Error"; message := "Not allowed by CORS" |},
              ["Blocked origin: " +:+ o])).
Proof.
  unfold corsOrigin, isAllowed.
  destruct origin as [o|]; cbn [truthy negb]; [|split; [tauto | discriminate]].
  destruct (String.eqb_spec o "") as [->|Hne]; cbn [negb]; [split; [tauto | discriminate]|].
  cbn [default from_option]. change (id o) with o.
  destruct (Array_includes allowed o) eqn:Hin; cbn [fst snd].
  - split; [tauto | discriminate].
  - split; [split; discriminate|]. intros _. exists o. repeat split; try assumption.
    rewrite <- Array_includes_In. congruence.
Qed.

Lemma denial_is_logged_witness :
  originCallback (Some "https://summitcards.co.uk.evil.example")
  = (Denied {| name := "Error"; message := "Not allowed by CORS" |},
     ["Blocked origin: https://summitcards.co.uk.evil.example"]).
Proof.
  destruct (proj2 (denial_is_logged allowedOrigins
                     (Some "https://summitcards.co.uk.evil.example")) eq_refl)
    as (o & Ho & _ & _ & E).
  injection Ho as <-. exact E.
Defined.

(** X17: the decision depends on the allow-list only as a set: adding
    entries never turns an allowed origin into a denied one, and
    reordering or repeating entries changes nothing, neither the verdict
    nor what is logged. *)
Theorem allow_list_is_a_set (allowed allowed' : list string) (origin : option string) :
  ((forall x : string, In x allowed -> In x allowed') ->
   isAllowed (corsOrigin allowed origin) = true ->
   isAllowed (corsOrigin allowed' origin) = true)
  /\ ((forall x : string, In x allowed <-> In x allowed') ->
      corsOrigin allowed origin = corsOrigin allowed' origin).
Proof.
  assert (Hinc : forall l l' : list string, forall o : string,
             (forall x, In x l -> In x l') ->
             Array_includes l o = true -> Array_includes l' o = true).
  { intros l l' o Hsub. rewrite !Array_includes_In. apply Hsub. }
  unfold corsOrigin, isAllowed. split.
  - intros Hsub. destruct (negb (truthy origin)); [reflexivity|]. cbv zeta.
    destruct (Array_includes allowed (default "" origin)) eqn:E; [|discriminate].
    now rewrite (Hinc _ _ _ Hsub E).
  - intros Heq. destruct (negb (truthy origin)); [reflexivity|]. cbv zeta.
    destruct (Array_includes allowed (default "" origin)) eqn:E,
             (Array_includes allowed' (default "" origin)) eqn:E'; try reflexivity.
    + rewrite (Hinc allowed allowed' _ (fun x => proj1 (Heq x)) E) in E'. discriminate.
    + rewrite (Hinc allowed' allowed _ (fun x => proj2 (Heq x)) E') in E. discriminate.
Qed.

Lemma allow_list_is_a_set_witness :
  isAllowed (corsOrigin ("https://staging.summitcards.co.uk" :: allowedOrigins)
               (Some "http://localhost:5173")) = true.
Proof.
  apply (proj1 (allow_list_is_a_set allowedOrigins
                  ("https://staging.summitcards.co.uk" :: allowedOrigins)
                  (Some "http://localhost:5173"))).
  - intros x Hx. right. exact Hx.
  - reflexivity.
Defined.

(** ** The shape of the health timestamp *)

Section TimestampShape.

Lemma length_append (a b : string) :
  String.length (a +:+ b) = (String.length a + String.length b)%nat.
Proof.
  induction a as [|c a IH]; [reflexivity|].
  rewrite append_cons. cbn [String.length]. now rewrite IH.
Qed.

Lemma length_padded (w : nat) : forall n : Z, String.length (padded w n) = w.
Proof.
  induction w as [|w IH]; intros n; [reflexivity|].
  rewrite padded_succ. cbn [String.length]. now rewrite IH.
Qed.

Lemma four_digit_year (t : Z) :
  (0 <=? YearFromTime t) && (YearFromTime t <=? 9999)
  = (-62167219200000 <=? t) && (t <? 253402300800000).
Proof.
  pose proof (YearFromTime_largest t 0) as H0.
  pose proof (YearFromTime_largest t 10000) as H1.
  change (TimeFromYear 0) with (-62167219200000) in H0.
  change (TimeFromYear 10000) with 253402300800000 in H1.
  destruct (Z.leb_spec 0 (YearFromTime t)), (Z.leb_spec (YearFromTime t) 9999),
    (Z.leb_spec (-62167219200000) t), (Z.ltb_spec t 253402300800000);
    cbn [andb]; try reflexivity; lia.
Qed.

End TimestampShape.

(** X18: the health timestamp has a fixed width: 24 characters
    ([YYYY-MM-DDTHH:mm:ss.sssZ]) for every clock reading from the start of
    year 0 to the end of year 9999, and 27 characters (signed six-digit
    year) for any other. *)
Theorem health_timestamp_width (clock : Z) :
  exists ts : string,
    timestampOf (getHealth clock) = Some (JString ts)
    /\ String.length ts
       = if (-62167219200000 <=? clock) && (clock <? 253402300800000)
         then 24%nat else 27%nat.
Proof.
  exists (toISOString clock). split; [reflexivity|].
  rewrite <- four_digit_year. unfold toISOString, yearString.
  rewrite !length_append, !length_padded.
  destruct ((0 <=? YearFromTime clock) && (YearFromTime clock <=? 9999)).
  - rewrite length_padded. reflexivity.
  - rewrite length_append, length_padded.
    destruct (YearFromTime clock <? 0); reflexivity.
Qed.
